(** * sunpy.data.data_manager.cache: the download cache

    A shallow embedding of [sunpy/data/data_manager/cache.py] (class [Cache])
    and the properties of its lookup / expiry / mirror-fallback algorithm.

    The methods of [Cache] are Python code with side effects (storage
    provider, file system, network, clock, warnings) and exceptions.  They are
    embedded in a state-and-exception monad [M] over a record [World]; a
    raised exception keeps the state reached so far, as in Python. *)

From Stdlib Require Import ZArith List Lia Ascii.
From stdpp Require Import base option list gmap strings pretty.
Import ListNotations.

Local Open Scope Z_scope.
Local Open Scope string_scope.
Local Open Scope list_scope.

(** ** Exceptions and results *)

(** The subclasses of Python's [Exception] that the code and its
    collaborators raise.  [except Exception] catches all of them. *)
Inductive exn : Type :=
| RuntimeError (msg : string)
| FileNotFoundError (path : string)
| URLError (reason : string)
| DownloaderError (msg : string)
| StorageError (msg : string)
| TypeError (msg : string)
| SunpyUserWarning (message : exn).

Inductive result (A : Type) : Type :=
| Ok (a : A)
| Raise (e : exn).
Arguments Ok {A} a.
Arguments Raise {A} e.

#[global] Instance exn_eq_dec : EqDecision exn.
Proof.
  unfold EqDecision, Decision. decide equality; apply String.string_dec.
Defined.

(** ** Data model *)

(** The dict stored by [Cache.download] (lines 83-88): its four keys are
    fixed, so it is a record.  [time] is the instant [datetime.now()] of the
    store, counted in microseconds (the resolution of [datetime]); the code
    keeps it as an ISO string and parses it back with [fromisoformat]. *)
Record CacheEntry : Type := {
  file_hash : string;
  file_path : string;
  url : string;
  time : Z
}.

#[global] Instance CacheEntry_eq_dec : EqDecision CacheEntry.
Proof. solve_decision. Defined.

(** The key names the cache passes to the storage provider. *)
Inductive key : Type := K_file_hash | K_file_path | K_url.

#[global] Instance key_eq_dec : EqDecision key.
Proof. solve_decision. Defined.

Definition entry_get (k : key) (e : CacheEntry) : string :=
  match k with
  | K_file_hash => file_hash e
  | K_file_path => file_path e
  | K_url => url e
  end.

(** The [urls] argument of [Cache.download]: "`list` or `str`". *)
Inductive urls_arg : Type :=
| UrlStr (s : string)
| UrlList (l : list string).

(** ** The collaborators' interfaces *)

(** [sunpy.data.data_manager.storage.StorageProviderBase]: the three methods
    the cache calls.  [S] is the provider's state.  A method may raise; a
    mutator that raises still returns the state it left behind. *)
Class StorageProviderBase (S : Type) : Type := {
  find_by_key : key -> string -> S -> result (option CacheEntry);
  delete_by_key : key -> string -> S -> result unit * S;
  store : CacheEntry -> S -> result unit * S
}.

(** Everything outside the process that the cache touches: the file system
    (path to bytes), the wall clock, and the remote side / downloader state
    [R], which is left abstract. *)
Record Env (R : Type) : Type := mkEnv {
  files : gmap string string;
  clock : Z;
  remote : R
}.
Arguments mkEnv {R} _ _ _.
Arguments files {R} _.
Arguments clock {R} _.
Arguments remote {R} _.

(** [sunpy.data.data_manager.downloader.DownloaderBase]:
    [download(url, path)] fetches [url] into [path] or raises.  It may do
    anything to the environment (write the file, a partial file, nothing). *)
Class DownloaderBase (R : Type) : Type := {
  downloader_download : string -> string -> Env R -> result unit * Env R
}.

(** [urllib.request.urlopen] and [sunpy.util.net.get_filename]: opening the
    URL yields a response of type [Sock] or raises; the file name is read off
    the response and the URL. *)
Class Net (R Sock : Type) : Type := {
  urlopen : string -> Env R -> result Sock * Env R;
  get_filename : Sock -> string -> result string
}.

(** ** Observable events

    Every call the cache makes to a collaborator is recorded, in order, so
    that "is never invoked" and "is tried next" can be stated. *)
Inductive Event : Type :=
| EvFind (k : key) (v : string)
| EvDelete (k : key) (v : string)
| EvStore (e : CacheEntry)
| EvUrlopen (url : string)
| EvDownload (url path : string)
| EvHash (path : string)
| EvRemove (path : string)
| EvWarn (e : exn).

#[global] Instance Event_eq_dec : EqDecision Event.
Proof. solve_decision. Defined.

Record World (S R : Type) : Type := mkWorld {
  storage : S;
  env : Env R;
  trace : list Event
}.
Arguments mkWorld {S R} _ _ _.
Arguments storage {S R} _.
Arguments env {S R} _.
Arguments trace {S R} _.

(** ** The monad *)

Definition M (S R A : Type) : Type := World S R -> result A * World S R.

Definition ret {S R A} (a : A) : M S R A := fun w => (Ok a, w).

Definition raise {S R A} (e : exn) : M S R A := fun w => (Raise e, w).

Definition bind {S R A B} (m : M S R A) (k : A -> M S R B) : M S R B :=
  fun w =>
    match m w with
    | (Ok a, w') => k a w'
    | (Raise e, w') => (Raise e, w')
    end.

(** [try: m except Exception as e: h e] *)
Definition try_except {S R A} (m : M S R A) (h : exn -> M S R A) : M S R A :=
  fun w =>
    match m w with
    | (Ok a, w') => (Ok a, w')
    | (Raise e, w') => h e w'
    end.

Declare Scope cache_scope.
Delimit Scope cache_scope with cache.
Notation "'let*' x ':=' m 'in' k" := (bind m (fun x => k))
  (at level 10, x pattern, m at level 100, k at level 200) : cache_scope.
Notation "m '>>' k" := (bind m (fun _ => k))
  (at level 90, right associativity) : cache_scope.
Local Open Scope cache_scope.

Definition log {S R} (ev : Event) (w : World S R) : World S R :=
  mkWorld (storage w) (env w) (trace w ++ [ev]).

(** Run a collaborator that acts on the environment only. *)
Definition in_env {S R A} (f : Env R -> result A * Env R) : M S R A :=
  fun w => let '(r, e') := f (env w) in (r, mkWorld (storage w) e' (trace w)).

(** Run a storage-provider method that may change the provider's state. *)
Definition in_storage {S R A} (f : S -> result A * S) : M S R A :=
  fun w => let '(r, s') := f (storage w) in (r, mkWorld s' (env w) (trace w)).

Definition emit {S R} (ev : Event) : M S R unit := fun w => (Ok tt, log ev w).

Definition lift {S R A} (r : result A) : M S R A := fun w => (r, w).

(** ** Paths

    [pathlib.PurePosixPath]: a path is a root ([""], ["/"] or ["//"]) and
    the list of its components; empty components and ["."] are dropped
    when a string is parsed, [".."] is kept. *)
Record PurePosixPath : Type := {
  path_root : string;
  path_parts : list string
}.

Fixpoint split_slash (s cur : string) : list string :=
  match s with
  | EmptyString => [cur]
  | String c s' =>
      if Ascii.eqb c "/"%char then cur :: split_slash s' ""
      else split_slash s' (cur +:+ String c "")
  end.

(** One leading slash, or three and more, make the root ["/"]; exactly two
    make the root ["//"]. *)
Definition posix_root (s : string) : string :=
  match s with
  | String "/" (String "/" (String "/" _)) => "/"
  | String "/" (String "/" _) => "//"
  | String "/" _ => "/"
  | _ => ""
  end.

Definition posix_parts (s : string) : list string :=
  List.filter (fun c => negb (String.eqb c "" || String.eqb c "."))
              (split_slash s "").

(** [Path(s)] *)
Definition Path (s : string) : PurePosixPath :=
  {| path_root := posix_root s; path_parts := posix_parts s |}.

(** [str(path)] *)
Definition path_str (p : PurePosixPath) : string :=
  match path_root p, path_parts p with
  | EmptyString, [] => "."
  | r, ps => r +:+ String.concat "/" ps
  end.

(** [path / key]: an absolute [key] replaces the path, a relative one
    extends it. *)
Definition path_div (p : PurePosixPath) (key : string) : PurePosixPath :=
  if String.eqb (posix_root key) "" then
    {| path_root := path_root p; path_parts := path_parts p ++ posix_parts key |}
  else Path key.

(** ** The class [Cache] *)

Section Cache.
Context {S R Sock : Type}.
Context `{!StorageProviderBase S, !DownloaderBase R, !Net R Sock}.

(** The attributes set by [Cache.__init__] (lines 35-39).  [expiry] is
    [None] or the configured expiry in whole microseconds (rounded down);
    a scalar [TimeDelta] is always truthy, so [self._expiry and ...] tests
    only for [None]. *)
Variable cache_dir : string.
Variable expiry : option Z.

(** Line 74 compares a [datetime.timedelta] (whole microseconds) with the
    astropy [TimeDelta] of line 39, which holds the expiry in floating-point
    days.  For an age that differs from the expiry by a microsecond or more
    the comparison gives the exact answer; for an age equal to the expiry
    its answer depends on how the expiry was rounded:
    [expired_at_expiry] is that answer. *)
Variable expired_at_expiry : bool.

(** The warning filters in force when the cache runs:
    [warn_raises e] is what [warnings.warn(e, SunpyUserWarning)] raises, if
    anything ([SunpyUserWarning(e)] under an "error" filter, [TypeError]
    when a filter with a message pattern is matched against the exception
    object [e]); [None] when the warning is shown, recorded or ignored. *)
Variable warn_raises : exn -> option exn.

(** [sunpy.util.util.replacement_filename] (reads the file system) and the
    digest computed by [sunpy.util.util.hash_file]. *)
Variable replacement_filename : string -> gmap string string -> string.
Variable digest : string -> string.

Abbreviation M := (M S R).

(** *** Calls to the collaborators *)

Definition storage_find_by_key (k : key) (v : string) : M (option CacheEntry) :=
  emit (EvFind k v) >> (fun w => (find_by_key k v (storage w), w)).

Definition storage_delete_by_key (k : key) (v : string) : M unit :=
  emit (EvDelete k v) >> in_storage (delete_by_key k v).

Definition storage_store (e : CacheEntry) : M unit :=
  emit (EvStore e) >> in_storage (store e).

(** [os.remove(path)] *)
Definition os_remove (path : string) : M unit :=
  emit (EvRemove path) >>
  in_env (fun e =>
    match files e !! path with
    | Some _ => (Ok tt, mkEnv (delete path (files e)) (clock e) (remote e))
    | None => (Raise (FileNotFoundError path), e)
    end).

(** [hash_file(path)]: reads the bytes of the file and digests them. *)
Definition hash_file (path : string) : M string :=
  emit (EvHash path) >>
  in_env (fun e =>
    match files e !! path with
    | Some bytes => (Ok (digest bytes), e)
    | None => (Raise (FileNotFoundError path), e)
    end).

(** [datetime.now()] *)
Definition datetime_now : M Z := fun w => (Ok (clock (env w)), w).

(** [warn(e, SunpyUserWarning)]: returns, or raises what the filters make
    of it. *)
Definition warn (e : exn) : M unit :=
  emit (EvWarn e) >>
  match warn_raises e with
  | None => ret tt
  | Some x => raise x
  end.

(** [self._cache_dir / name], with [self._cache_dir = Path(cache_dir)]
    (line 38); the path is carried as its string. *)
Definition joinpath (name : string) : string :=
  path_str (path_div (Path cache_dir) name).

(** *** [Cache._get_by_url] (lines 103-113) *)
Definition _get_by_url (url : string) : M (option CacheEntry) :=
  let* details := storage_find_by_key K_url url in
  ret details.

(** *** [Cache.get_by_hash] (lines 91-101) *)
Definition get_by_hash (sha_hash : string) : M (option CacheEntry) :=
  let* details := storage_find_by_key K_file_hash sha_hash in
  ret details.

(** *** [Cache._download_and_hash] (lines 115-142) *)

(** The nested function [download(url)] (lines 129-134). *)
Definition _download_and_hash_download (url : string)
  : M (string * string * string) :=
  let* sock := emit (EvUrlopen url) >> in_env (urlopen url) in
  let* name := lift (get_filename sock url) in
  let path := joinpath name in
  let* path := (fun w => (Ok (replacement_filename path (files (env w))), w)) in
  let* _ := emit (EvDownload url path) >> in_env (downloader_download url path) in
  let* shahash := hash_file path in
  ret (path, shahash, url).

(** The [for ... try ... except ... else] loop (lines 136-142). *)
Fixpoint _download_and_hash (urls : list string) : M (string * string * string) :=
  match urls with
  | [] => raise (RuntimeError "Download failed")
  | url :: urls' =>
      try_except (_download_and_hash_download url)
                 (fun e => warn e >> _download_and_hash urls')
  end.

(** *** [Cache.download] (lines 41-89) *)

(** Lines 67-71: [details = None; for url in urls: ...; if details: break]. *)
Fixpoint scan_urls (urls : list string) (details : option CacheEntry)
  : M (option CacheEntry) :=
  match urls with
  | [] => ret details
  | url :: urls' =>
      let* details := _get_by_url url in
      match details with
      | Some _ => ret details
      | None => scan_urls urls' details
      end
  end.

(** [age > self._expiry] for an age and an expiry in microseconds. *)
Definition timedelta_gt (age x : Z) : bool :=
  if decide (age = x) then expired_at_expiry else bool_decide (age > x).

(** Line 73-74: [self._expiry and now() - fromisoformat(time) > self._expiry]. *)
Definition is_expired (details : CacheEntry) : M bool :=
  match expiry with
  | None => ret false
  | Some x =>
      let* now := datetime_now in
      ret (timedelta_gt (now - time details) x)
  end.

(** Lines 66-78, guarded by [if not redownload].  [Some p] is the early
    [return Path(details['file_path'])]; [None] falls through to line 80. *)
Definition check_cache (urls : list string) (redownload : bool)
  : M (option string) :=
  if negb redownload then
    let* details := scan_urls urls None in
    match details with
    | Some details =>
        let* stale := is_expired details in
        if stale : bool then
          let* _ := os_remove (file_path details) in
          let* _ := storage_delete_by_key K_url (url details) in
          ret None
        else ret (Some (file_path details))
    | None => ret None
    end
  else ret None.

(** Lines 80-89. *)
Definition fetch_and_store (urls : list string) (redownload : bool) : M string :=
  let* (file_path, file_hash, url) := _download_and_hash urls in
  let* _ := (if negb redownload then
               let* now := datetime_now in
               storage_store {| file_hash := file_hash;
                                file_path := file_path;
                                url := url;
                                time := now |}
             else ret tt) in
  ret file_path.

Definition download (urls : urls_arg) (redownload : bool) : M string :=
  let urls := match urls with UrlStr s => [s] | UrlList l => l end in
  let* cached := check_cache urls redownload in
  match cached with
  | Some path => ret path
  | None => fetch_and_store urls redownload
  end.

(** The world after the loop has failed on each of [urls] in turn: each
    [download(url)] raises, its warning is issued and returns, and the next
    URL runs in the world so left.  [None] when one of them succeeds or
    when issuing a warning raises. *)
Fixpoint after_failures (urls : list string) (w : World S R)
  : option (World S R) :=
  match urls with
  | [] => Some w
  | url :: urls' =>
      match _download_and_hash_download url w with
      | (Ok _, _) => None
      | (Raise e, w') =>
          match warn e w' with
          | (Ok _, w'') => after_failures urls' w''
          | (Raise _, _) => None
          end
      end
  end.

(** "Every candidate URL fails", as the loop sees it: every
    [download(url)] raises and every warning is issued without raising. *)
Definition every_url_fails (urls : list string) (w : World S R) : bool :=
  if after_failures urls w is Some _ then true else false.

(** The entry is within its expiry window at instant [now]. *)
Definition fresh_at (now : Z) (details : CacheEntry) : Prop :=
  match expiry with
  | None => True
  | Some x => now - time details <= x
  end.

(** The entry passes the test of lines 73-74 at instant [now]: there is no
    expiry, or its age is below the expiry, or equal to it with the
    comparison not counting that as greater. *)
Definition served_at (now : Z) (details : CacheEntry) : Prop :=
  match expiry with
  | None => True
  | Some x =>
      now - time details < x \/
      (now - time details = x /\ expired_at_expiry = false)
  end.

(** The entry fails that test: it is judged expired. *)
Definition stale_at (now : Z) (details : CacheEntry) : Prop :=
  match expiry with
  | None => False
  | Some x =>
      now - time details > x \/
      (now - time details = x /\ expired_at_expiry = true)
  end.

End Cache.

Arguments joinpath : simpl never.
Arguments timedelta_gt : simpl never.

(** ** Reading the trace *)

Definition is_storage_ev (ev : Event) : bool :=
  match ev with EvFind _ _ | EvDelete _ _ | EvStore _ => true | _ => false end.

Definition is_store_ev (ev : Event) : bool :=
  match ev with EvStore _ => true | _ => false end.

(** Network and downloader activity: [urlopen] and [Downloader.download]. *)
Definition is_fetch_ev (ev : Event) : bool :=
  match ev with EvUrlopen _ | EvDownload _ _ => true | _ => false end.

(** The skeleton of the fallback loop: which URL was tried, which warning
    was issued, in order. *)
Definition is_attempt_ev (ev : Event) : bool :=
  match ev with EvUrlopen _ | EvWarn _ => true | _ => false end.

(** What the loop's skeleton looks like after the URLs [fst <$> l] failed,
    one after the other, with the exceptions [snd <$> l]. *)
Fixpoint failed_attempts (l : list (string * exn)) : list Event :=
  match l with
  | [] => []
  | (u, e) :: l' => EvUrlopen u :: EvWarn e :: failed_attempts l'
  end.

(** Events between opening the URL and the end of one [download(url)]. *)
Definition is_transfer_ev (ev : Event) : bool :=
  match ev with EvDownload _ _ | EvHash _ => true | _ => false end.

(** ** What the cache expects of a storage provider

    The one law the cache relies on when it reads back what it stored:
    after a successful [store] of [e], a URL the provider had no entry for
    is found exactly when it is the URL of [e]. *)
Class StorageProviderLaws (S : Type) `{!StorageProviderBase S} : Prop := {
  find_url_after_store (e : CacheEntry) (s s' : S) (u : string) :
    store e s = (Ok tt, s') ->
    find_by_key K_url u s = Ok None ->
    find_by_key K_url u s' = Ok (if decide (url e = u) then Some e else None)
}.

(** ** Test doubles

    Concrete collaborators, used to run the cache on explicit inputs. *)

(** Modelled from the spec: the Storage Provider of section 6
    ([sunpy/data/data_manager/storage.py] is not among the sources), as an
    in-memory list of records: [store] inserts a record, [find_by_key] is an
    exact-match lookup on a named field, [delete_by_key] removes the records
    matching a field's value. *)
Definition list_find (k : key) (v : string) (s : list CacheEntry)
  : option CacheEntry :=
  List.find (fun e => bool_decide (entry_get k e = v)) s.

Definition list_delete (k : key) (v : string) (s : list CacheEntry)
  : list CacheEntry :=
  List.filter (fun e => negb (bool_decide (entry_get k e = v))) s.

#[global] Instance InMemStorage : StorageProviderBase (list CacheEntry) := {
  find_by_key k v s := Ok (list_find k v s);
  delete_by_key k v s := (Ok tt, list_delete k v s);
  store e s := (Ok tt, s ++ [e])
}.

(** A provider whose records cannot be deleted (a read-only database). *)
Record ReadOnlyStore : Type := { ro_entries : list CacheEntry }.

#[global] Instance ReadOnlyStorage : StorageProviderBase ReadOnlyStore := {
  find_by_key k v s := Ok (list_find k v (ro_entries s));
  delete_by_key k v s := (Raise (StorageError "read-only"), s);
  store e s := (Raise (StorageError "read-only"), s)
}.

(** A static web: each reachable URL serves a named file. *)
Record Page : Type := { page_name : string; page_body : string }.

#[global] Instance StaticNet : Net (gmap string Page) Page := {
  urlopen u e :=
    match remote e !! u with
    | Some pg => (Ok pg, e)
    | None => (Raise (URLError u), e)
    end;
  get_filename pg _ := Ok (page_name pg)
}.

#[global] Instance StaticDownloader : DownloaderBase (gmap string Page) := {
  downloader_download u path e :=
    match remote e !! u with
    | Some pg =>
        (Ok tt, mkEnv (<[path := page_body pg]> (files e)) (clock e) (remote e))
    | None => (Raise (DownloaderError u), e)
    end
}.

(** Modelled from the spec: [sunpy.util.util.replacement_filename], the
    "generation of a collision-free destination filename given a desired
    path" of section 6 (the helper is not among the sources): the desired
    path if no file has it, else the path with the first unused counter
    appended. *)
Fixpoint first_unused (fs : gmap string string) (path : string) (k fuel : nat)
  : string :=
  let candidate := path +:+ "." +:+ pretty k in
  match fuel with
  | O => candidate
  | Datatypes.S fuel' =>
      match fs !! candidate with
      | None => candidate
      | Some _ => first_unused fs path (Datatypes.S k) fuel'
      end
  end.

Definition replacement_filename_model (path : string) (fs : gmap string string)
  : string :=
  match fs !! path with
  | None => path
  | Some _ => first_unused fs path 0 (size fs)
  end.

(** A stand-in digest. *)
Definition digest_model (bytes : string) : string := "sha:" +:+ bytes.

(** ** Scenarios

    A cache over the in-memory provider and the static web, with cache
    directory [/cache], and the worlds it is run in below. *)

(** Warning filters: the defaults (the warning is shown and [warn]
    returns), and [-W error] (the warning is raised). *)
Definition default_filters (e : exn) : option exn := None.
Definition error_filters (e : exn) : option exn := Some (SunpyUserWarning e).

Definition run_download (expiry : option Z)
  : urls_arg -> bool
    -> M (list CacheEntry) (gmap string Page) string :=
  download (Sock:=Page) "/cache" expiry false default_filters
    replacement_filename_model digest_model.

Definition url_a : string := "http://a.example/data/f.fits".
Definition url_b : string := "http://b.example/mirror/f.fits".
Definition url_c : string := "http://c.example/pub/f.fits".

Definition entry_a : CacheEntry :=
  {| file_hash := "sha:old bytes"; file_path := "/cache/f.fits";
     url := url_a; time := 0 |}.

Definition entry_b : CacheEntry :=
  {| file_hash := "sha:b bytes"; file_path := "/cache/b.fits";
     url := url_b; time := 95 |}.

Definition web_a : gmap string Page :=
  {[ url_a := {| page_name := "f.fits"; page_body := "new bytes" |} ]}.

Definition web_c : gmap string Page :=
  {[ url_c := {| page_name := "c.fits"; page_body := "c bytes" |} ]}.

(** Nothing cached, only mirror C reachable. *)
Definition empty_cache_world : World (list CacheEntry) (gmap string Page) :=
  mkWorld [] (mkEnv ∅ 100 web_c) [].

(** Nothing cached, no mirror reachable. *)
Definition offline_world : World (list CacheEntry) (gmap string Page) :=
  mkWorld [] (mkEnv ∅ 100 ∅) [].

(** The entry for A was stored at instant 0 and its file is on disk; it is
    now instant 100 and A serves new bytes under the same file name. *)
Definition stale_world : World (list CacheEntry) (gmap string Page) :=
  mkWorld [entry_a] (mkEnv {[ "/cache/f.fits" := "old bytes" ]} 100 web_a) [].


(** The same cache and disk, with every mirror unreachable. *)
Definition stale_offline_world : World (list CacheEntry) (gmap string Page) :=
  mkWorld [entry_a] (mkEnv {[ "/cache/f.fits" := "old bytes" ]} 100 ∅) [].

(** The entry for A is cached, but its file has been removed from disk. *)
Definition dangling_world : World (list CacheEntry) (gmap string Page) :=
  mkWorld [entry_a] (mkEnv ∅ 100 web_a) [].


(** Entries for A (stored at 0) and B (stored at 95), both files on disk;
    at instant 100 only mirror C is reachable. *)
Definition two_entries_world : World (list CacheEntry) (gmap string Page) :=
  mkWorld [entry_a; entry_b]
          (mkEnv {[ "/cache/f.fits" := "old bytes"; "/cache/b.fits" := "b bytes" ]}
                 100 web_c)
          [].

(** ** Further readings of the trace *)

(** Eviction: [os.remove] and the provider's [delete_by_key]. *)
Definition is_evict_ev (ev : Event) : bool :=
  match ev with EvRemove _ | EvDelete _ _ => true | _ => false end.

Definition is_find_ev (ev : Event) : bool :=
  match ev with EvFind _ _ => true | _ => false end.

(** What the fallback loop of [_download_and_hash] can log. *)
Definition is_loop_ev (ev : Event) : bool :=
  match ev with
  | EvUrlopen _ | EvDownload _ _ | EvHash _ | EvWarn _ => true
  | _ => false
  end.

(** ** Further test doubles *)

(** A provider that cannot be reached: every method raises. *)
Inductive DownStore : Type := down_store.

#[global] Instance UnreachableStorage : StorageProviderBase DownStore := {
  find_by_key _ _ _ := Raise (StorageError "unavailable");
  delete_by_key _ _ s := (Raise (StorageError "unavailable"), s);
  store _ s := (Raise (StorageError "unavailable"), s)
}.

(** A web whose pages open, but whose transfers may go wrong: the
    Downloader writes the file, raises half-way leaving a partial file, or
    returns without having written anything. *)
Inductive Transfer : Type := Completes | Aborts | WritesNothing.

#[global] Instance FlakyNet : Net (gmap string (Page * Transfer)) Page := {
  urlopen u e :=
    match remote e !! u with
    | Some (pg, _) => (Ok pg, e)
    | None => (Raise (URLError u), e)
    end;
  get_filename pg _ := Ok (page_name pg)
}.

#[global] Instance FlakyDownloader
  : DownloaderBase (gmap string (Page * Transfer)) := {
  downloader_download u path e :=
    match remote e !! u with
    | Some (pg, Completes) =>
        (Ok tt, mkEnv (<[path := page_body pg]> (files e)) (clock e) (remote e))
    | Some (pg, Aborts) =>
        (Raise (DownloaderError u),
         mkEnv (<[path := ""]> (files e)) (clock e) (remote e))
    | Some (pg, WritesNothing) => (Ok tt, e)
    | None => (Raise (DownloaderError u), e)
    end
}.

Definition flaky_web : gmap string (Page * Transfer) :=
  {[ url_a := ({| page_name := "a.fits"; page_body := "a bytes" |}, Aborts);
     url_b := ({| page_name := "b.fits"; page_body := "b bytes" |}, WritesNothing);
     url_c := ({| page_name := "c.fits"; page_body := "c bytes" |}, Completes) ]}.

(** Nothing cached; A aborts, B writes nothing, C completes. *)
Definition flaky_world : World (list CacheEntry) (gmap string (Page * Transfer)) :=
  mkWorld [] (mkEnv ∅ 100 flaky_web) [].

(** Mirror C reachable, but the provider is unreachable. *)
Definition unreachable_world : World DownStore (gmap string Page) :=
  mkWorld down_store (mkEnv ∅ 100 web_c) [].

(** Mirror C reachable, nothing cached, and the provider refuses to store. *)
Definition read_only_empty_world : World ReadOnlyStore (gmap string Page) :=
  mkWorld {| ro_entries := [] |} (mkEnv ∅ 100 web_c) [].

(** ** Properties of the cache *)

Section CacheFacts.
Context {S R Sock : Type}.
Context `{!StorageProviderBase S, !DownloaderBase R, !Net R Sock}.
Variable cache_dir : string.
Variable expiry : option Z.
Variable expired_at_expiry : bool.
Variable warn_raises : exn -> option exn.
Variable replacement_filename : string -> gmap string string -> string.
Variable digest : string -> string.

Abbreviation download_url :=
  (_download_and_hash_download (S:=S) cache_dir replacement_filename digest).
Abbreviation download_and_hash :=
  (_download_and_hash (S:=S) cache_dir warn_raises replacement_filename digest).
Abbreviation fetch :=
  (fetch_and_store (S:=S) cache_dir warn_raises replacement_filename digest).
Abbreviation cache_download :=
  (download (S:=S) cache_dir expiry expired_at_expiry warn_raises
     replacement_filename digest).
Abbreviation failures :=
  (after_failures (S:=S) cache_dir warn_raises replacement_filename digest).
Abbreviation all_fail :=
  (every_url_fails (S:=S) cache_dir warn_raises replacement_filename digest).

Ltac run :=
  unfold _download_and_hash_download, hash_file, os_remove, warn,
    storage_find_by_key, storage_delete_by_key, storage_store,
    datetime_now, bind, try_except, emit, in_env, in_storage, lift,
    ret, raise, log in *;
  simpl in *.

(** *** One attempt *)

(** What a single [download(url)] can do: it leaves the storage provider
    alone, logs the opening of the URL first, and, when it returns, the
    file it names is on disk and its hash is the digest of its bytes. *)
Lemma download_url_outcome url (w w' : World S R) r :
  download_url url w = (r, w') ->
  storage w' = storage w /\
  exists t,
    trace w' = trace w ++ EvUrlopen url :: t /\
    List.filter is_attempt_ev t = [] /\
    List.filter is_storage_ev t = [] /\
    match r with
    | Ok (p, h, u) =>
        u = url /\ t = [EvDownload url p; EvHash p] /\
        exists bytes, files (env w') !! p = Some bytes /\ h = digest bytes
    | Raise _ => True
    end.
Proof.
  run. intros Hrun.
  destruct (urlopen url (env w)) as [[sock|e] en1]; simpl in Hrun.
  2: { inversion Hrun; subst; simpl. split; [done|]. exists []. done. }
  destruct (get_filename sock url) as [name|e]; simpl in Hrun.
  2: { inversion Hrun; subst; simpl. split; [done|]. exists []. done. }
  destruct (downloader_download url _ en1) as [[[]|e] en2] eqn:Hd; simpl in Hrun.
  2: { inversion Hrun; subst; simpl. split; [done|].
       eexists [_]. rewrite <- app_assoc. done. }
  destruct (files en2 !! _) as [bytes|] eqn:Hf; simpl in Hrun;
    inversion Hrun; subst; simpl; (split; [done|]).
  - eexists. rewrite <- !app_assoc. simpl. split; [reflexivity|].
    repeat split; eauto.
  - eexists [_; _]. rewrite <- !app_assoc. done.
Qed.

(** *** The fallback loop *)

Lemma download_and_hash_cons url urls (w : World S R) :
  download_and_hash (url :: urls) w =
  match download_url url w with
  | (Ok a, w') => (Ok a, w')
  | (Raise e, w') =>
      match warn_raises e with
      | None => download_and_hash urls (log (EvWarn e) w')
      | Some x => (Raise x, log (EvWarn e) w')
      end
  end.
Proof.
  cbn [_download_and_hash]. unfold try_except.
  destruct (download_url url w) as [[a|e] w']; [done|].
  unfold warn, bind, emit, ret, raise. by destruct (warn_raises e).
Qed.

Lemma failures_cons url urls (w : World S R) :
  failures (url :: urls) w =
  match download_url url w with
  | (Ok _, _) => None
  | (Raise e, w') =>
      match warn_raises e with
      | None => failures urls (log (EvWarn e) w')
      | Some _ => None
      end
  end.
Proof.
  cbn [after_failures].
  destruct (download_url url w) as [[a|e] w']; [done|].
  unfold warn, bind, emit, ret, raise. by destruct (warn_raises e).
Qed.

Lemma filter_attempt_failed fails :
  List.filter is_attempt_ev (failed_attempts fails) = failed_attempts fails.
Proof.
  induction fails as [|[u e] fails IH]; simpl; [done|]. by rewrite IH.
Qed.

(** A single [download(url)] that returns went through every stage:
    the URL was opened, the Downloader wrote the destination chosen by
    [replacement_filename], and the file was hashed. *)
Lemma download_url_success url (w w1 : World S R) p h u :
  download_url url w = (Ok (p, h, u), w1) ->
  exists sock en1 name en2 bytes,
    urlopen url (env w) = (Ok sock, en1) /\
    get_filename sock url = Ok name /\
    p = replacement_filename (joinpath cache_dir name) (files en1) /\
    downloader_download url p en1 = (Ok tt, en2) /\
    files en2 !! p = Some bytes /\
    h = digest bytes /\ u = url /\
    w1 = mkWorld (storage w) en2
           (trace w ++ [EvUrlopen url; EvDownload url p; EvHash p]).
Proof.
  run. intros Hrun.
  destruct (urlopen url (env w)) as [[sock|e] en1]; simpl in Hrun; [|done].
  destruct (get_filename sock url) as [name|e] eqn:Hn; simpl in Hrun; [|done].
  destruct (downloader_download url _ en1) as [[[]|e] en2] eqn:Hd;
    simpl in Hrun; [|done].
  destruct (files en2 !! _) as [bytes|] eqn:Hf; simpl in Hrun; [|done].
  inversion Hrun; subst. exists sock, en1, name, en2, bytes.
  rewrite <- !app_assoc. done.
Qed.

(** The loop tries the URLs in order; every failure is followed by its
    warning and the next URL; the first success ends the loop. *)
Lemma download_and_hash_outcome urls : forall (w w' : World S R) r,
  download_and_hash urls w = (r, w') ->
  storage w' = storage w /\
  exists t fails,
    trace w' = trace w ++ t /\
    List.filter is_storage_ev t = [] /\
    match r with
    | Ok (p, h, u) =>
        (exists post, urls = fails.*1 ++ u :: post) /\
        List.filter is_attempt_ev t = failed_attempts fails ++ [EvUrlopen u] /\
        (exists t0, t = t0 ++ [EvUrlopen u; EvDownload u p; EvHash p]) /\
        (exists bytes, files (env w') !! p = Some bytes /\ h = digest bytes) /\
        exists w_mid,
          failures fails.*1 w = Some w_mid /\
          download_url u w_mid = (Ok (p, h, u), w')
    | Raise e => True
    end.
Proof.
  induction urls as [|url urls IH]; intros w w' r Hrun.
  - inversion Hrun; subst. split; [done|]. exists [], [].
    rewrite app_nil_r. done.
  - rewrite download_and_hash_cons in Hrun.
    destruct (download_url url w) as [[[[p h] u]|e] w1] eqn:Hone;
      pose proof Hone as Hone';
      apply download_url_outcome in Hone as (Hst & t1 & Htr & Hatt & Hsto & Hres).
    + inversion Hrun; subst r w1; clear Hrun.
      destruct Hres as (-> & -> & bytes & Hf & ->).
      split; [done|]. exists [EvUrlopen url; EvDownload url p; EvHash p], [].
      simpl. repeat split; eauto. by exists [].
    + destruct (warn_raises e) as [x|] eqn:Hwarn.
      { inversion Hrun; subst r w'; clear Hrun. simpl.
        split; [done|]. exists (EvUrlopen url :: t1 ++ [EvWarn e]), [].
        split; [by rewrite Htr, <- !app_assoc|].
        split; [|done]. simpl. rewrite List.filter_app, Hsto. done. }
      apply IH in Hrun as (Hst' & t & fails & Htr' & Hsto' & Hres').
      simpl in Hst', Htr'. split; [congruence|].
      exists (EvUrlopen url :: t1 ++ EvWarn e :: t), ((url, e) :: fails).
      split.
      { rewrite Htr', Htr. rewrite <- !app_assoc. done. }
      split.
      { simpl. rewrite List.filter_app, Hsto. simpl. done. }
      destruct r as [[[p h] u]|e']; [|done].
      destruct Hres' as ((post & ->) & Hsk & (t0 & ->) & Hfile & w_mid & Hmid & Hu).
      repeat split; eauto.
      * simpl. rewrite List.filter_app, Hatt. simpl. by rewrite Hsk.
      * exists (EvUrlopen url :: t1 ++ EvWarn e :: t0).
        simpl. rewrite <- app_assoc. done.
      * exists w_mid. split; [|done].
        rewrite fmap_cons. cbn [fst]. by rewrite failures_cons, Hone', Hwarn.
Qed.

(** Once the URLs of [pre] have failed, a URL that succeeds ends the loop
    with its own result, whatever follows it in the list. *)
Lemma download_and_hash_first_success pre : forall u post (w w_mid w1 : World S R) r,
  failures pre w = Some w_mid ->
  download_url u w_mid = (Ok r, w1) ->
  download_and_hash (pre ++ u :: post) w = (Ok r, w1).
Proof.
  induction pre as [|v pre IH]; intros u post w w_mid w1 r Hpre Hu.
  - injection Hpre as ->. simpl app. by rewrite download_and_hash_cons, Hu.
  - simpl app. rewrite download_and_hash_cons. rewrite failures_cons in Hpre.
    destruct (download_url v w) as [[a|e] w']; [done|].
    destruct (warn_raises e); [done|]. by apply (IH u post _ w_mid).
Qed.

(** When every URL fails and every warning returns, the loop raises
    [RuntimeError("Download failed")] after one attempt and one warning
    per URL. *)
Lemma all_fail_raises urls : forall (w : World S R),
  all_fail urls w = true ->
  exists w' t fails,
    download_and_hash urls w = (Raise (RuntimeError "Download failed"), w') /\
    storage w' = storage w /\
    trace w' = trace w ++ t /\
    List.filter is_storage_ev t = [] /\
    fails.*1 = urls /\
    List.filter is_attempt_ev t = failed_attempts fails.
Proof.
  unfold every_url_fails.
  induction urls as [|url urls IH]; intros w Hall.
  - exists w, [], []. rewrite app_nil_r. done.
  - rewrite failures_cons in Hall. rewrite download_and_hash_cons.
    destruct (download_url url w) as [[a|e] w1] eqn:Hone; [done|].
    apply download_url_outcome in Hone as (Hst & t1 & Htr & Hatt & Hsto & _).
    destruct (warn_raises e); [done|].
    apply IH in Hall as (w' & t & fails & -> & Hst' & Htr' & Hsto' & Hurls & Hsk).
    simpl in Hst', Htr'.
    exists w', (EvUrlopen url :: t1 ++ EvWarn e :: t), ((url, e) :: fails).
    split; [done|]. split; [congruence|].
    split; [by rewrite Htr', Htr, <- !app_assoc|].
    split; [simpl; by rewrite List.filter_app, Hsto|].
    split; [by rewrite fmap_cons, Hurls|].
    simpl. rewrite List.filter_app, Hatt. simpl. by rewrite Hsk.
Qed.

(** *** The cache scan *)

Lemma scan_urls_cons url urls d (w : World S R) :
  scan_urls (url :: urls) d w =
  match find_by_key K_url url (storage w) with
  | Ok (Some e) => (Ok (Some e), log (EvFind K_url url) w)
  | Ok None => scan_urls urls None (log (EvFind K_url url) w)
  | Raise x => (Raise x, log (EvFind K_url url) w)
  end.
Proof.
  simpl. unfold _get_by_url. run.
  by destruct (find_by_key K_url url (storage w)) as [[e|]|x].
Qed.

Lemma scan_urls_hit pre : forall u post e d (w : World S R),
  (forall v, v ∈ pre -> find_by_key K_url v (storage w) = Ok None) ->
  find_by_key K_url u (storage w) = Ok (Some e) ->
  scan_urls (pre ++ u :: post) d w =
  (Ok (Some e),
   mkWorld (storage w) (env w) (trace w ++ (EvFind K_url <$> pre ++ [u]))).
Proof.
  induction pre as [|v pre IH]; intros u post e d w Hpre Hu.
  - simpl app. rewrite scan_urls_cons, Hu. done.
  - simpl app. rewrite scan_urls_cons.
    rewrite (Hpre v) by set_solver.
    rewrite (IH u post e) by (simpl; intros; eauto; apply Hpre; set_solver).
    simpl. by rewrite <- app_assoc.
Qed.

Lemma scan_urls_miss urls : forall (w : World S R),
  (forall v, v ∈ urls -> find_by_key K_url v (storage w) = Ok None) ->
  scan_urls urls None w =
  (Ok None, mkWorld (storage w) (env w) (trace w ++ (EvFind K_url <$> urls))).
Proof.
  induction urls as [|v urls IH]; intros w Hall.
  - simpl. unfold ret. rewrite app_nil_r. by destruct w.
  - rewrite scan_urls_cons, (Hall v) by set_solver.
    rewrite IH by (simpl; intros; apply Hall; set_solver).
    simpl. by rewrite <- app_assoc.
Qed.

(** Whatever the provider answers, the scan only queries it. *)
Lemma scan_urls_outcome urls : forall (w w' : World S R) r,
  scan_urls urls None w = (r, w') ->
  exists scanned,
    w' = mkWorld (storage w) (env w) (trace w ++ (EvFind K_url <$> scanned)) /\
    match r with
    | Ok (Some e) =>
        exists pre u post,
          scanned = pre ++ [u] /\ urls = pre ++ u :: post /\
          (forall v, v ∈ pre -> find_by_key K_url v (storage w) = Ok None) /\
          find_by_key K_url u (storage w) = Ok (Some e)
    | Ok None =>
        scanned = urls /\
        forall v, v ∈ urls -> find_by_key K_url v (storage w) = Ok None
    | Raise x => True
    end.
Proof.
  induction urls as [|v urls IH]; intros w w' r Hrun.
  - inversion Hrun; subst. exists []. rewrite app_nil_r.
    split; [by destruct w'|]. split; [done|]. intros v Hv. set_solver.
  - rewrite scan_urls_cons in Hrun.
    destruct (find_by_key K_url v (storage w)) as [[e|]|x] eqn:Hv.
    + inversion Hrun; subst. exists [v]. split; [done|].
      exists [], v, urls. repeat split; eauto. intros ? ?; set_solver.
    + apply IH in Hrun as (scanned & -> & Hres). simpl in *.
      exists (v :: scanned). split; [by rewrite <- app_assoc|].
      destruct r as [[e|]|x].
      * destruct Hres as (pre & u & post & -> & -> & Hpre & Hu).
        exists (v :: pre), u, post. repeat split; eauto.
        intros v' Hv'. apply elem_of_cons in Hv' as [->|Hv']; eauto.
      * destruct Hres as (-> & Hall). split; [done|].
        intros v' Hv'. apply elem_of_cons in Hv' as [->|Hv']; eauto.
      * done.
    + inversion Hrun; subst. exists [v]. done.
Qed.

(** *** Download and persist (lines 80-89) *)

Lemma fetch_unfold urls rd (w : World S R) :
  fetch urls rd w =
  match download_and_hash urls w with
  | (Ok (p, h, u), w1) =>
      if rd then (Ok p, w1)
      else
        let entry := {| file_hash := h; file_path := p; url := u;
                        time := clock (env w1) |} in
        match store entry (storage w1) with
        | (Ok _, s') => (Ok p, mkWorld s' (env w1) (trace w1 ++ [EvStore entry]))
        | (Raise x, s') =>
            (Raise x, mkWorld s' (env w1) (trace w1 ++ [EvStore entry]))
        end
  | (Raise x, w1) => (Raise x, w1)
  end.
Proof.
  unfold fetch_and_store. unfold bind at 1.
  destruct (download_and_hash urls w) as [[[[p h] u]|x] w1]; [|done].
  destruct rd; [done|]. run.
  by destruct (store _ (storage w1)) as [[[]|x] s'].
Qed.

Lemma fetch_outcome urls rd (w w' : World S R) p :
  fetch urls rd w = (Ok p, w') ->
  exists t fails u h bytes,
    let entry := {| file_hash := h; file_path := p; url := u;
                    time := clock (env w') |} in
    let stored := if rd then [] else [EvStore entry] in
    trace w' = trace w ++ t /\
    (exists post, urls = fails.*1 ++ u :: post) /\
    List.filter is_attempt_ev t = failed_attempts fails ++ [EvUrlopen u] /\
    List.filter is_storage_ev t = stored /\
    (exists t0, t = t0 ++ [EvUrlopen u; EvDownload u p; EvHash p] ++ stored) /\
    files (env w') !! p = Some bytes /\ h = digest bytes /\
    (if rd then storage w' = storage w
     else store entry (storage w) = (Ok tt, storage w')).
Proof.
  rewrite fetch_unfold. intros Hrun.
  destruct (download_and_hash urls w) as [[[[p' h] u]|x] w1] eqn:Hdl; [|done].
  apply download_and_hash_outcome in Hdl
    as (Hst & t & fails & Htr & Hsto & Hpost & Hsk & (t0 & ->) &
        (bytes & Hf & ->) & _).
  destruct rd.
  - inversion Hrun; subst p' w1; clear Hrun.
    exists (t0 ++ [EvUrlopen u; EvDownload u p; EvHash p]), fails, u, (digest bytes), bytes.
    simpl. repeat split; eauto.
  - cbv zeta in Hrun.
    destruct (store _ (storage w1)) as [[[]|x] s'] eqn:Hs; [|done].
    inversion Hrun; subst p' w'; clear Hrun. simpl.
    exists ((t0 ++ [EvUrlopen u; EvDownload u p; EvHash p]) ++
            [EvStore {| file_hash := digest bytes; file_path := p; url := u;
                        time := clock (env w1) |}]),
      fails, u, (digest bytes), bytes.
    simpl. repeat split; eauto.
    + by rewrite Htr, <- app_assoc.
    + rewrite List.filter_app, Hsk. simpl. by rewrite app_nil_r.
    + rewrite List.filter_app, Hsto. done.
    + exists t0. by rewrite <- app_assoc.
    + by rewrite <- Hst.
Qed.

Lemma fetch_all_fail urls rd (w : World S R) :
  all_fail urls w = true ->
  exists w' t fails,
    fetch urls rd w = (Raise (RuntimeError "Download failed"), w') /\
    storage w' = storage w /\
    trace w' = trace w ++ t /\
    List.filter is_storage_ev t = [] /\
    fails.*1 = urls /\
    List.filter is_attempt_ev t = failed_attempts fails.
Proof.
  intros (w' & t & fails & Hdl & Hrest)%all_fail_raises.
  rewrite fetch_unfold, Hdl. by exists w', t, fails.
Qed.

(** *** The cache check (lines 66-78) *)

Abbreviation check := (check_cache (S:=S) (R:=R) expiry expired_at_expiry).
Abbreviation fresh := (fresh_at expiry).
Abbreviation served := (served_at expiry expired_at_expiry).
Abbreviation stale := (stale_at expiry expired_at_expiry).

Lemma timedelta_gt_above (age x : Z) :
  age > x -> timedelta_gt expired_at_expiry age x = true.
Proof.
  intros Hgt. unfold timedelta_gt. rewrite decide_False by lia.
  by rewrite bool_decide_eq_true_2.
Qed.

Lemma timedelta_gt_below (age x : Z) :
  age < x -> timedelta_gt expired_at_expiry age x = false.
Proof.
  intros Hlt. unfold timedelta_gt. rewrite decide_False by lia.
  rewrite bool_decide_eq_false_2; [done|lia].
Qed.

Lemma timedelta_gt_at (x : Z) :
  timedelta_gt expired_at_expiry x x = expired_at_expiry.
Proof. unfold timedelta_gt. by rewrite decide_True. Qed.

Lemma is_expired_fresh e (w : World S R) :
  served (clock (env w)) e ->
  is_expired expiry expired_at_expiry e w = (Ok false, w).
Proof.
  unfold served_at, is_expired. destruct expiry as [x|]; [|done].
  intros [Hlt|[Heq Hflag]]; run.
  - by rewrite timedelta_gt_below.
  - by rewrite Heq, timedelta_gt_at, Hflag.
Qed.

Lemma is_expired_stale e x (w : World S R) :
  expiry = Some x -> clock (env w) - time e > x ->
  is_expired expiry expired_at_expiry e w = (Ok true, w).
Proof.
  unfold is_expired. intros -> Hstale. run.
  by rewrite timedelta_gt_above.
Qed.

Lemma is_expired_decides e (w w' : World S R) r :
  is_expired expiry expired_at_expiry e w = (r, w') ->
  w' = w /\
  exists b, r = Ok b /\
    if b then stale (clock (env w)) e else served (clock (env w)) e.
Proof.
  unfold served_at, stale_at, is_expired. destruct expiry as [x|]; run.
  - intros [= <- <-]. split; [done|]. eexists; split; [done|].
    destruct (Z.lt_trichotomy (clock (env w) - time e) x) as [Hlt|[Heq|Hgt]].
    + rewrite timedelta_gt_below by done. by left.
    + rewrite Heq, timedelta_gt_at. destruct expired_at_expiry; by right.
    + rewrite timedelta_gt_above by lia. left. lia.
  - intros [= <- <-]. split; [done|]. by exists false.
Qed.

Lemma served_fresh now e : served now e -> fresh now e.
Proof.
  unfold served_at, fresh_at. destruct expiry as [x|]; [|done].
  intros [Hlt|[Heq _]]; lia.
Qed.

Lemma is_expired_outcome e (w w' : World S R) r :
  is_expired expiry expired_at_expiry e w = (r, w') ->
  w' = w /\ exists b, r = Ok b /\ (b = false -> fresh (clock (env w)) e).
Proof.
  intros (-> & b & -> & Hb)%is_expired_decides. split; [done|].
  exists b. split; [done|]. intros ->. by apply served_fresh.
Qed.

Lemma check_redownload urls (w : World S R) :
  check urls true w = (Ok None, w).
Proof. reflexivity. Qed.

Lemma check_fresh_hit pre u post e (w : World S R) :
  (forall v, v ∈ pre -> find_by_key K_url v (storage w) = Ok None) ->
  find_by_key K_url u (storage w) = Ok (Some e) ->
  served (clock (env w)) e ->
  check (pre ++ u :: post) false w =
  (Ok (Some (file_path e)),
   mkWorld (storage w) (env w) (trace w ++ (EvFind K_url <$> pre ++ [u]))).
Proof.
  intros Hpre Hu Hfresh. unfold check_cache. cbn [negb].
  unfold bind at 1. rewrite (scan_urls_hit pre u post e) by done.
  unfold bind. by rewrite is_expired_fresh.
Qed.

Lemma check_miss urls (w : World S R) :
  (forall v, v ∈ urls -> find_by_key K_url v (storage w) = Ok None) ->
  check urls false w =
  (Ok None, mkWorld (storage w) (env w) (trace w ++ (EvFind K_url <$> urls))).
Proof.
  intros Hall. unfold check_cache. cbn [negb].
  unfold bind. by rewrite scan_urls_miss.
Qed.

(** A stale hit: [os.remove], then [delete_by_key], each of which may raise. *)
Lemma check_stale_hit pre u post e x (w : World S R) :
  expiry = Some x ->
  (forall v, v ∈ pre -> find_by_key K_url v (storage w) = Ok None) ->
  find_by_key K_url u (storage w) = Ok (Some e) ->
  clock (env w) - time e > x ->
  check (pre ++ u :: post) false w =
  let finds := EvFind K_url <$> pre ++ [u] in
  match files (env w) !! file_path e with
  | None =>
      (Raise (FileNotFoundError (file_path e)),
       mkWorld (storage w) (env w)
               (trace w ++ finds ++ [EvRemove (file_path e)]))
  | Some _ =>
      let env' := mkEnv (delete (file_path e) (files (env w)))
                        (clock (env w)) (remote (env w)) in
      let t := trace w ++ finds ++
               [EvRemove (file_path e); EvDelete K_url (url e)] in
      match delete_by_key K_url (url e) (storage w) with
      | (Ok _, s') => (Ok None, mkWorld s' env' t)
      | (Raise fault, s') => (Raise fault, mkWorld s' env' t)
      end
  end.
Proof.
  intros Hexp Hpre Hu Hstale. unfold check_cache. cbn [negb].
  unfold bind at 1. rewrite (scan_urls_hit pre u post e) by done.
  unfold bind at 1. rewrite (is_expired_stale e x) by done.
  run. destruct (files (env w) !! file_path e) as [bytes|]; simpl.
  - destruct (delete_by_key K_url (url e) (storage w)) as [[[]|fault] s'];
      simpl; by rewrite <- !app_assoc.
  - by rewrite <- !app_assoc.
Qed.

Lemma filter_finds (f : Event -> bool) (l : list string) :
  (forall v, f (EvFind K_url v) = false) ->
  List.filter f (EvFind K_url <$> l) = [].
Proof.
  intros Hf. induction l as [|v l IH]; simpl; [done|]. by rewrite Hf.
Qed.

(** The cache check never touches the network, never warns and never
    stores; when it returns a path, that path is the [file_path] of the
    first entry found, which is within its expiry window, and nothing was
    checked on disk. *)
Lemma check_outcome urls rd (w w' : World S R) r :
  check urls rd w = (r, w') ->
  exists t,
    trace w' = trace w ++ t /\
    List.filter is_attempt_ev t = [] /\
    List.filter is_store_ev t = [] /\
    List.filter is_fetch_ev t = [] /\
    match r with
    | Ok (Some p) =>
        rd = false /\ storage w' = storage w /\ env w' = env w /\
        exists pre u post e,
          urls = pre ++ u :: post /\
          (forall v, v ∈ pre -> find_by_key K_url v (storage w) = Ok None) /\
          find_by_key K_url u (storage w) = Ok (Some e) /\
          fresh (clock (env w)) e /\ p = file_path e /\
          t = (EvFind K_url <$> pre ++ [u])
    | _ => True
    end.
Proof.
  destruct rd.
  { rewrite check_redownload. intros [= <- <-]. exists [].
    by rewrite app_nil_r. }
  unfold check_cache. cbn [negb]. unfold bind at 1.
  destruct (scan_urls urls None w) as [[[e|]|x] w1] eqn:Hscan;
    apply scan_urls_outcome in Hscan as (scanned & -> & Hres).
  - destruct Hres as (pre & u & post & -> & -> & Hpre & Hu).
    unfold bind at 1.
    destruct (is_expired expiry expired_at_expiry e _) as [rb w2] eqn:Hexp.
    apply is_expired_outcome in Hexp as (-> & b & -> & Hb). simpl in Hb.
    destruct b.
    + run. destruct (files (env w) !! file_path e) as [bytes|]; simpl.
      * destruct (delete_by_key K_url (url e) (storage w)) as [[[]|fault] s'];
          simpl; intros [= <- <-]; simpl;
          exists ((EvFind K_url <$> pre ++ [u]) ++
                  [EvRemove (file_path e); EvDelete K_url (url e)]);
          rewrite !List.filter_app, !filter_finds by done;
          by rewrite <- !app_assoc.
      * intros [= <- <-]; simpl.
        exists ((EvFind K_url <$> pre ++ [u]) ++ [EvRemove (file_path e)]).
        rewrite !List.filter_app, !filter_finds by done.
        by rewrite <- !app_assoc.
    + intros [= <- <-]. simpl. exists (EvFind K_url <$> pre ++ [u]).
      rewrite !filter_finds by done. repeat split; eauto.
      exists pre, u, post, e. repeat split; eauto.
  - intros [= <- <-]. simpl. exists (EvFind K_url <$> scanned).
    by rewrite !filter_finds.
  - intros [= <- <-]. simpl. exists (EvFind K_url <$> scanned).
    by rewrite !filter_finds.
Qed.

Lemma download_unfold urls rd (w : World S R) :
  cache_download (UrlList urls) rd w =
  match check urls rd w with
  | (Ok (Some path), w') => (Ok path, w')
  | (Ok None, w') => fetch urls rd w'
  | (Raise x, w') => (Raise x, w')
  end.
Proof.
  unfold download, bind.
  by destruct (check urls rd w) as [[[path|]|x] w'].
Qed.

Lemma filter_nil_weaken (f g : Event -> bool) (t : list Event) :
  (forall ev, g ev = true -> f ev = true) ->
  List.filter f t = [] -> List.filter g t = [].
Proof.
  intros Hfg. induction t as [|ev t IH]; simpl; [done|].
  destruct (f ev) eqn:Hf; [done|]. intros Ht.
  destruct (g ev) eqn:Hg; [|by apply IH].
  apply Hfg in Hg. congruence.
Qed.

(** *** The claims *)


(** C5. A call [download(urls, redownload=True)] goes straight to the
    network, whatever the cache holds.  No storage-provider method is
    called (no find, no store, no delete) and the provider's state is
    unchanged.  The first candidate URL is opened in the environment the
    call started in: when it opens, the Downloader writes the destination
    and the file is there, the call returns that destination in the
    environment the Downloader left; when it cannot be opened, the call
    goes on with the other URLs in the environment [urlopen] left (or
    ends with what issuing the warning raises). *)
Theorem redownload_bypasses_storage u urls (w : World S R) :
  let w' := (cache_download (UrlList (u :: urls)) true w).2 in
  (storage w' = storage w /\
   exists t,
     trace w' = trace w ++ EvUrlopen u :: t /\
     List.filter is_storage_ev t = []) /\
  (forall sock en1 name en2 bytes,
     urlopen u (env w) = (Ok sock, en1) ->
     get_filename sock u = Ok name ->
     let path := replacement_filename (joinpath cache_dir name) (files en1) in
     downloader_download u path en1 = (Ok tt, en2) ->
     files en2 !! path = Some bytes ->
     cache_download (UrlList (u :: urls)) true w =
     (Ok path,
      mkWorld (storage w) en2
        (trace w ++ [EvUrlopen u; EvDownload u path; EvHash path]))) /\
  (forall x en1,
     urlopen u (env w) = (Raise x, en1) ->
     cache_download (UrlList (u :: urls)) true w =
     let w1 := mkWorld (storage w) en1 (trace w ++ [EvUrlopen u; EvWarn x]) in
     match warn_raises x with
     | None => cache_download (UrlList urls) true w1
     | Some y => (Raise y, w1)
     end).
Proof.
  cbv zeta. split; [|split].
  - rewrite download_unfold, check_redownload.
    rewrite fetch_unfold, download_and_hash_cons.
    destruct (download_url u w) as [[[[p h] u']|x] w1] eqn:Hone;
      apply download_url_outcome in Hone as (Hst & t1 & Htr & _ & Hsto & _).
    + simpl. split; [done|]. by exists t1.
    + destruct (warn_raises x) as [y|].
      { simpl. split; [done|]. exists (t1 ++ [EvWarn x]).
        rewrite List.filter_app, Hsto. split; [|done].
        by rewrite Htr, <- !app_assoc. }
      destruct (download_and_hash urls _) as [r w2] eqn:Hrest.
      apply download_and_hash_outcome in Hrest
        as (Hst' & t & fails & Htr' & Hsto' & _).
      simpl in Hst', Htr'.
      assert (storage w2 = storage w /\
              exists t', trace w2 = trace w ++ EvUrlopen u :: t' /\
                         List.filter is_storage_ev t' = []) as Hw2.
      { split; [congruence|]. exists (t1 ++ EvWarn x :: t). split.
        - rewrite Htr', Htr. by rewrite <- !app_assoc.
        - rewrite List.filter_app, Hsto. simpl. done. }
      by destruct r as [[[p h] u']|x'].
  - intros sock en1 name en2 bytes Hopen Hname Hdl Hfile.
    rewrite download_unfold, check_redownload.
    rewrite fetch_unfold, download_and_hash_cons. run.
    rewrite Hopen. simpl. rewrite Hname. simpl. rewrite Hdl. simpl.
    rewrite Hfile. simpl. by rewrite <- !app_assoc.
  - intros x en1 Hopen.
    rewrite !download_unfold, !check_redownload.
    rewrite !fetch_unfold, download_and_hash_cons. run.
    rewrite Hopen. simpl. rewrite <- !app_assoc. simpl.
    by destruct (warn_raises x).
Qed.

(** C7. [get_by_hash(h)] is the storage provider's
    [find_by_key('file_hash', h)] and nothing else: whatever the provider
    answers (an entry of any age, or [None]) is returned as it is; the
    clock and the expiry are not consulted, the provider's state and the
    files are unchanged, and the only event is that one query. *)
Theorem get_by_hash_pass_through h (s : S) (en : Env R) (tr : list Event) :
  get_by_hash h (mkWorld s en tr) =
  (find_by_key K_file_hash h s, mkWorld s en (tr ++ [EvFind K_file_hash h])).
Proof.
  unfold get_by_hash. run.
  by destruct (find_by_key K_file_hash h s) as [found|x].
Qed.

(** C2 (as the code has it).  When the scan finds an entry whose age
    strictly exceeds the (non-null) expiry, and [os.remove] and
    [delete_by_key] succeed, the call does not return from the cache: the
    backing file is removed, the entry is deleted keyed by its own [url],
    and the call continues as a fresh download-and-store from that evicted
    state.  When that download succeeds its path is returned, the file at
    that path exists and a new entry for it is stored; the path may be
    the old one, created anew. *)
Theorem stale_hit_evicts_then_downloads pre u post e x bytes s' (w : World S R) :
  expiry = Some x ->
  (forall v, v ∈ pre -> find_by_key K_url v (storage w) = Ok None) ->
  find_by_key K_url u (storage w) = Ok (Some e) ->
  clock (env w) - time e > x ->
  files (env w) !! file_path e = Some bytes ->
  delete_by_key K_url (url e) (storage w) = (Ok tt, s') ->
  let urls := pre ++ u :: post in
  let evicted :=
    mkWorld s'
            (mkEnv (delete (file_path e) (files (env w)))
                   (clock (env w)) (remote (env w)))
            (trace w ++ (EvFind K_url <$> pre ++ [u]) ++
             [EvRemove (file_path e); EvDelete K_url (url e)]) in
  files (env evicted) !! file_path e = None /\
  cache_download (UrlList urls) false w = fetch urls false evicted /\
  forall p w',
    cache_download (UrlList urls) false w = (Ok p, w') ->
    exists t0 u' h,
      trace w' = trace evicted ++ t0 ++
                 [EvUrlopen u'; EvDownload u' p; EvHash p;
                  EvStore {| file_hash := h; file_path := p; url := u';
                             time := clock (env w') |}] /\
      u' ∈ urls /\ is_Some (files (env w') !! p).
Proof.
  intros Hexp Hpre Hu Hstale Hfile Hdel urls evicted.
  assert (cache_download (UrlList urls) false w = fetch urls false evicted)
    as Hcall.
  { rewrite download_unfold. subst urls.
    rewrite (check_stale_hit pre u post e x) by done.
    cbv zeta. by rewrite Hfile, Hdel. }
  split; [apply lookup_delete_eq|]. split; [done|].
  intros p w' Hrun. rewrite Hcall in Hrun.
  apply fetch_outcome in Hrun
    as (t & fails & u' & h & bytes' & Htr & (post' & Hurls) & _ & _ &
        (t0 & ->) & Hf & _ & _).
  exists t0, u', h. split; [done|]. split; [|by eexists].
  rewrite Hurls. set_solver.
Qed.

(** C3 (as the code has it).  The fallback loop tries the candidate URLs
    in the order given.  Whenever it returns a triple [(path, hash, url)]:
    every URL listed before [url] was tried in turn, its [download(url)]
    raised and its warning was issued and returned; then [url] was opened,
    fetched by the Downloader and hashed, and the loop returned that very
    result in the world that attempt left, so no later URL is attempted
    (the result is the same whatever follows [url] in the list); and with
    [redownload=False] the entry handed to the provider's [store] carries
    that same URL. *)
Theorem fallback_tries_urls_in_order urls (w w1 : World S R) p h u :
  download_and_hash urls w = (Ok (p, h, u), w1) ->
  exists fails post w_mid t,
    urls = fails.*1 ++ u :: post /\
    failures fails.*1 w = Some w_mid /\
    download_url u w_mid = (Ok (p, h, u), w1) /\
    (exists sock en1 name bytes,
        urlopen u (env w_mid) = (Ok sock, en1) /\
        get_filename sock u = Ok name /\
        p = replacement_filename (joinpath cache_dir name) (files en1) /\
        downloader_download u p en1 = (Ok tt, env w1) /\
        files (env w1) !! p = Some bytes /\ h = digest bytes) /\
    trace w1 = trace w ++ t /\
    List.filter is_attempt_ev t = failed_attempts fails ++ [EvUrlopen u] /\
    (forall post',
        download_and_hash (fails.*1 ++ u :: post') w = (Ok (p, h, u), w1)) /\
    let entry := {| file_hash := h; file_path := p; url := u;
                    time := clock (env w1) |} in
    fetch urls false w =
      (match (store entry (storage w1)).1 with
       | Ok _ => Ok p
       | Raise fault => Raise fault
       end,
       mkWorld (store entry (storage w1)).2 (env w1)
               (trace w1 ++ [EvStore entry])).
Proof.
  intros Hrun. rewrite fetch_unfold, Hrun.
  apply download_and_hash_outcome in Hrun
    as (_ & t & fails & Htr & _ & (post & Hurls) & Hsk & _ & _ &
        w_mid & Hmid & Hu).
  exists fails, post, w_mid, t.
  split; [done|]. split; [done|]. split; [done|]. split.
  { pose proof Hu as Hinv. apply download_url_success in Hinv
      as (sock & en1 & name & en2 & bytes & Hopen & Hname & -> & Hdl & Hfile &
          -> & _ & ->).
    by exists sock, en1, name, bytes. }
  split; [done|]. split; [done|]. split.
  { intros post'. by apply (download_and_hash_first_success _ _ _ _ w_mid). }
  simpl. by destruct (store _ (storage w1)) as [[[]|x] s'].
Qed.

(** C4 (as the code has it).  When the call reaches the download stage
    (no usable cache entry, or [redownload=True]), every candidate URL
    fails and every warning is issued without raising, it raises
    [RuntimeError("Download failed")]: no path is returned, each URL was
    tried once and got its warning, and the provider's [store] is never
    called (its state is the one the download stage started from). *)
Theorem all_mirrors_fail_raises urls rd (w w1 : World S R) :
  check urls rd w = (Ok None, w1) ->
  all_fail urls w1 = true ->
  exists w2 t fails,
    cache_download (UrlList urls) rd w =
      (Raise (RuntimeError "Download failed"), w2) /\
    storage w2 = storage w1 /\
    trace w2 = trace w ++ t /\
    List.filter is_store_ev t = [] /\
    fails.*1 = urls /\
    List.filter is_attempt_ev t = failed_attempts fails.
Proof.
  intros Hcheck Hfail. rewrite download_unfold, Hcheck.
  apply check_outcome in Hcheck as (t0 & Htr0 & Hatt0 & Hsto0 & _).
  destruct (fetch_all_fail urls rd w1 Hfail)
    as (w2 & t & fails & -> & Hst & Htr & Hsto & Hurls & Hsk).
  exists w2, (t0 ++ t), fails. repeat split; try done.
  - by rewrite Htr, Htr0, <- app_assoc.
  - rewrite List.filter_app, Hsto0.
    apply (filter_nil_weaken is_storage_ev); [|done]. by intros [].
  - by rewrite List.filter_app, Hatt0.
Qed.

(** C6 (as the code has it).  A call to [download] that returns a path
    returns it in one of two ways.  After a download in this call
    (redownload, cache miss or stale entry): the file at the returned
    path exists at the moment of return, [hash_file] read it in this call
    after the Downloader wrote it, and the hash stored with it is the
    digest of those bytes.  From the cache (fresh hit): the stored
    [file_path] of the entry is returned as it is; the only events are
    provider queries, so the file is neither looked at nor hashed. *)
Theorem returned_path_verified_only_after_fetch urls rd (w w' : World S R) p :
  cache_download (UrlList urls) rd w = (Ok p, w') ->
  (exists bytes u t0,
      files (env w') !! p = Some bytes /\
      trace w' = trace w ++ t0 ++
        [EvUrlopen u; EvDownload u p; EvHash p] ++
        (if rd then []
         else [EvStore {| file_hash := digest bytes; file_path := p;
                          url := u; time := clock (env w') |}]))
  \/
  (rd = false /\ storage w' = storage w /\ env w' = env w /\
   exists pre u post e,
     urls = pre ++ u :: post /\
     find_by_key K_url u (storage w) = Ok (Some e) /\
     fresh (clock (env w)) e /\
     p = file_path e /\
     trace w' = trace w ++ (EvFind K_url <$> pre ++ [u])).
Proof.
  rewrite download_unfold.
  destruct (check urls rd w) as [[[path|]|x] w1] eqn:Hcheck; [| |done];
    apply check_outcome in Hcheck as (tc & Htc & _ & _ & _ & Hres).
  - intros [= <- <-]. right.
    destruct Hres as (-> & Hst & Hen & pre & u & post & e &
                      -> & _ & Hu & Hfresh & -> & ->).
    repeat split; try done. by exists pre, u, post, e.
  - intros Hrun. left.
    apply fetch_outcome in Hrun
      as (t & fails & u & h & bytes & Htr & _ & _ & _ & (t0 & ->) & Hf & -> & _).
    exists bytes, u, (tc ++ t0). split; [done|].
    by rewrite Htr, Htc, <- !app_assoc.
Qed.


(** C8 (as the code has it).  Take a first call with [redownload=False]
    that finds no usable entry and whose download succeeds at URL [u], at
    a moment when the provider holds no entry for [u] nor for any
    candidate listed before it, and whose entry the provider stores.  It
    returns the path fetched by its last Downloader invocation; and any
    later call with the same URL list, made while the new entry passes
    the expiry test and whatever happened to the environment in between,
    returns the identical path as a pure cache read: it only queries the
    provider, and invokes neither the network nor the Downloader. *)
Theorem second_call_is_cache_read `{!StorageProviderLaws S} pre u post
    (w w0 w1 : World S R) p h s1 :
  let urls := pre ++ u :: post in
  let entry := {| file_hash := h; file_path := p; url := u;
                  time := clock (env w1) |} in
  check urls false w = (Ok None, w0) ->
  (forall v, v ∈ pre ++ [u] -> find_by_key K_url v (storage w0) = Ok None) ->
  download_and_hash urls w0 = (Ok (p, h, u), w1) ->
  store entry (storage w1) = (Ok tt, s1) ->
  cache_download (UrlList urls) false w =
    (Ok p, mkWorld s1 (env w1) (trace w1 ++ [EvStore entry])) /\
  (exists t0,
      trace w1 = trace w0 ++ t0 ++ [EvUrlopen u; EvDownload u p; EvHash p]) /\
  forall (en : Env R) (tr : list Event),
    served (clock en) entry ->
    exists scanned,
      cache_download (UrlList urls) false (mkWorld s1 en tr) =
        (Ok p, mkWorld s1 en (tr ++ (EvFind K_url <$> scanned))) /\
      List.filter is_fetch_ev (EvFind K_url <$> scanned) = [].
Proof.
  intros urls entry Hcheck Hnone Hdl Hstore.
  split.
  { rewrite download_unfold, Hcheck, fetch_unfold, Hdl. cbv zeta.
    fold entry. by rewrite Hstore. }
  pose proof Hdl as Hout. apply download_and_hash_outcome in Hout
    as (Hst & t & fails & Htr & _ & _ & _ & (t0 & ->) & _).
  split; [by exists t0|].
  intros en tr Hserved.
  assert (u ∈ pre ++ [u]) as Hin by set_solver.
  apply list_elem_of_split_l in Hin as (l1 & l2 & Hsplit & Hnotin).
  assert (forall v, v ∈ pre ++ [u] ->
            find_by_key K_url v s1 =
            Ok (if decide (u = v) then Some entry else None)) as Hfind.
  { intros v Hv.
    apply (find_url_after_store entry (storage w1)); [done|].
    rewrite Hst. by apply Hnone. }
  exists (l1 ++ [u]). split; [|by apply filter_finds].
  assert (urls = l1 ++ u :: (l2 ++ post)) as ->.
  { subst urls. rewrite (cons_middle u pre post), app_assoc, Hsplit.
    by rewrite <- app_assoc. }
  rewrite download_unfold.
  rewrite (check_fresh_hit l1 u (l2 ++ post) entry); [done| | |done].
  - intros v Hv. simpl. rewrite Hfind by (rewrite Hsplit; set_solver).
    rewrite decide_False; [done|]. intros ->. done.
  - simpl. rewrite Hfind by (rewrite Hsplit; set_solver).
    by rewrite decide_True.
Qed.

(** C10. Calling [download] with a bare string [s] is calling it with the
    one-element list [[s]]. *)
Theorem download_str_is_singleton s rd (w : World S R) :
  cache_download (UrlStr s) rd w = cache_download (UrlList [s]) rd w.
Proof. reflexivity. Qed.

End CacheFacts.

(** ** The cache at work on the scenarios *)

Ltac no_earlier_hit :=
  let v := fresh "v" in
  let Hv := fresh "Hv" in
  intros v Hv;
  repeat (apply elem_of_cons in Hv as [->|Hv]; [reflexivity|]);
  by apply elem_of_nil in Hv.



(** C2, as stated, fails in both of its promises about the outcome.
    Online: the expired entry for A is evicted and A is fetched again, but
    the download lands on the path that has just been freed, so the call
    returns the old path and the old path exists afterwards.  Offline:
    the expired entry and its file are removed, then every mirror fails and
    the call raises, so no new path is returned at all. *)
Lemma stale_hit_returns_old_path :
  find_by_key K_url url_a (storage stale_world) = Ok (Some entry_a) /\
  clock (env stale_world) - time entry_a > 10 /\
  ((run_download (Some 10) (UrlList [url_a]) false stale_world).1 =
     Ok (file_path entry_a) /\
   files (env (run_download (Some 10) (UrlList [url_a]) false stale_world).2)
     !! file_path entry_a = Some "new bytes") /\
  find_by_key K_url url_a (storage stale_offline_world) = Ok (Some entry_a) /\
  clock (env stale_offline_world) - time entry_a > 10 /\
  ((run_download (Some 10) (UrlList [url_a]) false stale_offline_world).1 =
     Raise (RuntimeError "Download failed") /\
   storage (run_download (Some 10) (UrlList [url_a]) false stale_offline_world).2
     = []).
Proof. repeat split; vm_compute; reflexivity. Qed.

Lemma stale_hit_evicts_then_downloads_witness :
  exists evicted,
    storage evicted = [] /\
    files (env evicted) !! file_path entry_a = None /\
    run_download (Some 10) (UrlList [url_a]) false stale_world =
    fetch_and_store (Sock:=Page) "/cache" default_filters
      replacement_filename_model digest_model [url_a] false evicted.
Proof.
  destruct (stale_hit_evicts_then_downloads (Sock:=Page)
              "/cache" (Some 10) false default_filters
              replacement_filename_model digest_model
              [] url_a [] entry_a 10 "old bytes" [] stale_world)
    as (Hgone & Hcall & _).
  - reflexivity.
  - no_earlier_hit.
  - reflexivity.
  - simpl. lia.
  - reflexivity.
  - reflexivity.
  - eexists. split; [|split; [exact Hgone|exact Hcall]]. reflexivity.
Defined.

Lemma fallback_tries_urls_in_order_witness :
  let urls := [url_a; url_b; url_c] in
  let w := empty_cache_world in
  let w1 := (_download_and_hash (Sock:=Page) "/cache" default_filters
               replacement_filename_model digest_model urls w).2 in
  let p := "/cache/c.fits" in
  let h := "sha:c bytes" in
  exists fails post w_mid t,
    urls = fails.*1 ++ url_c :: post /\
    after_failures (Sock:=Page) "/cache" default_filters
      replacement_filename_model digest_model fails.*1 w = Some w_mid /\
    _download_and_hash_download (Sock:=Page) "/cache"
      replacement_filename_model digest_model url_c w_mid =
      (Ok (p, h, url_c), w1) /\
    (exists sock en1 name bytes,
        urlopen url_c (env w_mid) = (Ok sock, en1) /\
        get_filename sock url_c = Ok name /\
        p = replacement_filename_model (joinpath "/cache" name) (files en1) /\
        downloader_download url_c p en1 = (Ok tt, env w1) /\
        files (env w1) !! p = Some bytes /\ h = digest_model bytes) /\
    trace w1 = trace w ++ t /\
    List.filter is_attempt_ev t = failed_attempts fails ++ [EvUrlopen url_c] /\
    (forall post',
        _download_and_hash (Sock:=Page) "/cache" default_filters
          replacement_filename_model digest_model
          (fails.*1 ++ url_c :: post') w = (Ok (p, h, url_c), w1)) /\
    let entry := {| file_hash := h; file_path := p; url := url_c;
                    time := clock (env w1) |} in
    fetch_and_store (Sock:=Page) "/cache" default_filters
      replacement_filename_model digest_model urls false w =
    (match (store entry (storage w1)).1 with
     | Ok _ => Ok p
     | Raise fault => Raise fault
     end,
     mkWorld (store entry (storage w1)).2 (env w1) (trace w1 ++ [EvStore entry])).
Proof.
  intros urls w w1 p h.
  refine (fallback_tries_urls_in_order (S:=list CacheEntry) (Sock:=Page)
            "/cache" default_filters replacement_filename_model digest_model
            urls w w1 p h url_c _).
  vm_compute. reflexivity.
Defined.

(** C3, as stated, fails under warning filters that turn warnings into
    errors: mirror A fails, issuing its warning raises, and the call ends
    with that exception; mirror C, which works, is never tried. *)
Lemma warning_as_error_stops_fallback :
  download (Sock:=Page) "/cache" None false error_filters
    replacement_filename_model digest_model
    (UrlList [url_a; url_c]) true empty_cache_world =
  (Raise (SunpyUserWarning (URLError url_a)),
   mkWorld [] (env empty_cache_world)
     [EvUrlopen url_a; EvWarn (URLError url_a)]) /\
  (download (Sock:=Page) "/cache" None false error_filters
     replacement_filename_model digest_model
     (UrlList [url_c]) true empty_cache_world).1 = Ok "/cache/c.fits".
Proof. split; vm_compute; reflexivity. Qed.

Lemma all_mirrors_fail_raises_witness :
  let urls := [url_a; url_b] in
  exists w2 t fails,
    run_download (Some 10) (UrlList urls) false offline_world =
      (Raise (RuntimeError "Download failed"), w2) /\
    storage w2 = [] /\
    trace w2 = trace offline_world ++ t /\
    List.filter is_store_ev t = [] /\
    fails.*1 = urls /\
    List.filter is_attempt_ev t = failed_attempts fails.
Proof.
  intros urls.
  apply (all_mirrors_fail_raises (Sock:=Page)
           "/cache" (Some 10) false default_filters
           replacement_filename_model digest_model
           urls false offline_world
           (mkWorld [] (mkEnv ∅ 100 ∅) [EvFind K_url url_a; EvFind K_url url_b])).
  - reflexivity.
  - vm_compute. reflexivity.
Defined.

(** C4, as stated, fails under warning filters that turn warnings into
    errors: both mirrors are unreachable, yet the call does not raise the
    exhausted-mirrors fault; it ends with the first warning, raised, and
    the second mirror is never tried. *)
Lemma warning_as_error_preempts_exhaustion :
  urlopen (Sock:=Page) url_a (env offline_world) =
    (Raise (URLError url_a), env offline_world) /\
  urlopen (Sock:=Page) url_b (env offline_world) =
    (Raise (URLError url_b), env offline_world) /\
  download (Sock:=Page) "/cache" (Some 10) false error_filters
    replacement_filename_model digest_model
    (UrlList [url_a; url_b]) false offline_world =
  (Raise (SunpyUserWarning (URLError url_a)),
   mkWorld [] (env offline_world)
     [EvFind K_url url_a; EvFind K_url url_b;
      EvUrlopen url_a; EvWarn (URLError url_a)]).
Proof. repeat split; vm_compute; reflexivity. Qed.

(** A forced refresh with a valid hit in the cache: the file is fetched
    again (next to the cached one), the provider is neither asked nor told. *)
Lemma redownload_bypasses_storage_witness :
  run_download None (UrlList [url_a]) true stale_world =
  (Ok "/cache/f.fits.0",
   mkWorld [entry_a]
           (mkEnv {[ "/cache/f.fits" := "old bytes";
                     "/cache/f.fits.0" := "new bytes" ]} 100 web_a)
           [EvUrlopen url_a; EvDownload url_a "/cache/f.fits.0";
            EvHash "/cache/f.fits.0"]).
Proof.
  destruct (redownload_bypasses_storage (Sock:=Page)
              "/cache" None false default_filters
              replacement_filename_model digest_model
              url_a [] stale_world) as (_ & Hfetched & _).
  unfold run_download.
  refine (Hfetched {| page_name := "f.fits"; page_body := "new bytes" |}
            (env stale_world) "f.fits"
            (mkEnv {[ "/cache/f.fits" := "old bytes";
                      "/cache/f.fits.0" := "new bytes" ]} 100 web_a)
            "new bytes" _ _ _ _).
  - reflexivity.
  - reflexivity.
  - vm_compute. reflexivity.
  - vm_compute. reflexivity.
Defined.

(** C6, as stated, fails on a cache hit: the entry for A is returned
    although no file exists at its path. *)
Lemma cache_hit_returns_missing_file :
  (run_download None (UrlList [url_a]) false dangling_world).1 =
    Ok "/cache/f.fits" /\
  files (env (run_download None (UrlList [url_a]) false dangling_world).2)
    !! "/cache/f.fits" = None.
Proof. split; vm_compute; reflexivity. Qed.

Lemma returned_path_verified_only_after_fetch_witness :
  let urls := [url_a; url_b; url_c] in
  let w := empty_cache_world in
  let w' := (run_download (Some 10) (UrlList urls) false w).2 in
  let p := "/cache/c.fits" in
  (exists bytes u t0,
      files (env w') !! p = Some bytes /\
      trace w' = trace w ++ t0 ++
        [EvUrlopen u; EvDownload u p; EvHash p] ++
        [EvStore {| file_hash := digest_model bytes; file_path := p;
                    url := u; time := clock (env w') |}])
  \/
  (false = false /\ storage w' = storage w /\ env w' = env w /\
   exists pre u post e,
     urls = pre ++ u :: post /\
     find_by_key K_url u (storage w) = Ok (Some e) /\
     fresh_at (Some 10) (clock (env w)) e /\
     p = file_path e /\
     trace w' = trace w ++ (EvFind K_url <$> pre ++ [u])).
Proof.
  intros urls w w' p.
  apply (returned_path_verified_only_after_fetch (Sock:=Page)
           "/cache" (Some 10) false default_filters
           replacement_filename_model digest_model
           urls false w w' p).
  vm_compute. reflexivity.
Defined.


(** The in-memory provider obeys the law the cache relies on. *)
Lemma list_find_app k v (s s' : list CacheEntry) :
  list_find k v (s ++ s') =
  match list_find k v s with
  | Some e => Some e
  | None => list_find k v s'
  end.
Proof.
  unfold list_find. induction s as [|e s IH]; simpl; [done|].
  by destruct (bool_decide (entry_get k e = v)).
Qed.

#[global] Instance InMemStorage_laws : StorageProviderLaws (list CacheEntry).
Proof.
  constructor. intros e s s' u [= <-] [= Hnone]. simpl.
  rewrite list_find_app, Hnone. unfold list_find. simpl.
  case_decide as Hu.
  - by rewrite bool_decide_eq_true_2.
  - by rewrite bool_decide_eq_false_2.
Qed.

(** With the in-memory provider, a hash lookup returns the first record
    with that hash, whatever its [time] and whatever the clock shows. *)
Lemma get_by_hash_in_memory {R : Type} h (s : list CacheEntry)
    (en : Env R) (tr : list Event) :
  (get_by_hash h (mkWorld s en tr)).1 = Ok (list_find K_file_hash h s).
Proof. reflexivity. Qed.

Lemma get_by_hash_unknown {R : Type} h (s : list CacheEntry)
    (en : Env R) (tr : list Event) :
  Forall (fun e => file_hash e <> h) s ->
  (get_by_hash h (mkWorld s en tr)).1 = Ok None.
Proof.
  rewrite get_by_hash_in_memory. intros Hall. f_equal.
  unfold list_find. induction Hall as [|e s He _ IH]; simpl; [done|].
  by rewrite bool_decide_eq_false_2.
Qed.

(** C8, as stated, fails: the first call finds the expired entry for A
    first, evicts it and downloads from C (A and B being unreachable); the
    second call, with the entry just stored still fresh, scans A, then B,
    finds the older but unexpired entry for B and returns its path. *)
Lemma second_call_returns_another_path :
  let urls := UrlList [url_a; url_b; url_c] in
  let first := run_download (Some 10) urls false two_entries_world in
  let second := run_download (Some 10) urls false first.2 in
  first.1 = Ok "/cache/c.fits" /\
  find_by_key K_url url_c (storage first.2) =
    Ok (Some {| file_hash := "sha:c bytes"; file_path := "/cache/c.fits";
                url := url_c; time := 100 |}) /\
  clock (env first.2) - 100 <= 10 /\
  second.1 = Ok "/cache/b.fits".
Proof. repeat split; vm_compute; try reflexivity. discriminate. Qed.

Lemma second_call_is_cache_read_witness :
  let pre := [url_a; url_b] in
  let urls := pre ++ url_c :: [] in
  let w := empty_cache_world in
  let w0 : World (list CacheEntry) (gmap string Page) :=
    mkWorld [] (mkEnv ∅ 100 web_c) (trace w ++ (EvFind K_url <$> urls)) in
  let w1 := (_download_and_hash (Sock:=Page) "/cache" default_filters
               replacement_filename_model digest_model urls w0).2 in
  let p := "/cache/c.fits" in
  let entry := {| file_hash := "sha:c bytes"; file_path := p; url := url_c;
                  time := clock (env w1) |} in
  run_download (Some 10) (UrlList urls) false w =
    (Ok p, mkWorld [entry] (env w1) (trace w1 ++ [EvStore entry])) /\
  (exists t0,
      trace w1 =
      trace w0 ++ t0 ++ [EvUrlopen url_c; EvDownload url_c p; EvHash p]) /\
  forall (en : Env (gmap string Page)) (tr : list Event),
    served_at (Some 10) false (clock en) entry ->
    exists scanned,
      run_download (Some 10) (UrlList urls) false (mkWorld [entry] en tr) =
        (Ok p, mkWorld [entry] en (tr ++ (EvFind K_url <$> scanned))) /\
      List.filter is_fetch_ev (EvFind K_url <$> scanned) = [].
Proof.
  intros pre urls w w0 w1 p entry.
  apply (second_call_is_cache_read (Sock:=Page)
           "/cache" (Some 10) false default_filters
           replacement_filename_model digest_model
           pre url_c [] w w0 w1 p "sha:c bytes" [entry]).
  - reflexivity.
  - intros v _. reflexivity.
  - vm_compute. reflexivity.
  - reflexivity.
Defined.

(** ** Further properties: edge cases, faults and compositions *)

Section CacheFurther.
Context {S R Sock : Type}.
Context `{!StorageProviderBase S, !DownloaderBase R, !Net R Sock}.
Variable cache_dir : string.
Variable expiry : option Z.
Variable expired_at_expiry : bool.
Variable warn_raises : exn -> option exn.
Variable replacement_filename : string -> gmap string string -> string.
Variable digest : string -> string.

Abbreviation download_url :=
  (_download_and_hash_download (S:=S) cache_dir replacement_filename digest).
Abbreviation download_and_hash :=
  (_download_and_hash (S:=S) cache_dir warn_raises replacement_filename digest).
Abbreviation fetch :=
  (fetch_and_store (S:=S) cache_dir warn_raises replacement_filename digest).
Abbreviation cache_download :=
  (download (S:=S) cache_dir expiry expired_at_expiry warn_raises
     replacement_filename digest).
Abbreviation failures :=
  (after_failures (S:=S) cache_dir warn_raises replacement_filename digest).
Abbreviation all_fail :=
  (every_url_fails (S:=S) cache_dir warn_raises replacement_filename digest).
Abbreviation check := (check_cache (S:=S) (R:=R) expiry expired_at_expiry).
Abbreviation fresh := (fresh_at expiry).
Abbreviation served := (served_at expiry expired_at_expiry).
Abbreviation stale := (stale_at expiry expired_at_expiry).

Ltac step :=
  unfold _download_and_hash_download, hash_file, os_remove, warn,
    storage_find_by_key, storage_delete_by_key, storage_store,
    datetime_now, bind, try_except, emit, in_env, in_storage, lift,
    ret, raise, log in *;
  simpl in *.

(** *** Empty input *)

(** X1. With an empty URL list [download] raises
    [RuntimeError("Download failed")] at once, whatever [redownload] is:
    the provider is not queried, the network is not touched and the world
    is left exactly as it was. *)
Theorem download_empty_list_raises rd (w : World S R) :
  cache_download (UrlList []) rd w =
  (Raise (RuntimeError "Download failed"), w).
Proof.
  rewrite download_unfold. destruct rd.
  - rewrite check_redownload. reflexivity.
  - unfold check_cache. cbn [negb scan_urls]. reflexivity.
Qed.

(** *** Faults of the storage provider *)

Lemma scan_urls_raise pre : forall u post x d (w : World S R),
  (forall v, v ∈ pre -> find_by_key K_url v (storage w) = Ok None) ->
  find_by_key K_url u (storage w) = Raise x ->
  scan_urls (pre ++ u :: post) d w =
  (Raise x,
   mkWorld (storage w) (env w) (trace w ++ (EvFind K_url <$> pre ++ [u]))).
Proof.
  induction pre as [|v pre IH]; intros u post x d w Hpre Hu.
  - simpl app. rewrite scan_urls_cons, Hu. done.
  - simpl app. rewrite scan_urls_cons.
    rewrite (Hpre v) by set_solver.
    rewrite (IH u post x) by (simpl; intros; eauto; apply Hpre; set_solver).
    simpl. by rewrite <- app_assoc.
Qed.

(** X2. When the provider raises on the lookup of a candidate URL (the
    earlier candidates being unknown to it), [download(urls, False)] ends
    with that exception: the later URLs are not looked up, nothing is
    evicted and no download is attempted. *)
Theorem lookup_fault_propagates pre u post x (w : World S R) :
  (forall v, v ∈ pre -> find_by_key K_url v (storage w) = Ok None) ->
  find_by_key K_url u (storage w) = Raise x ->
  cache_download (UrlList (pre ++ u :: post)) false w =
  (Raise x,
   mkWorld (storage w) (env w) (trace w ++ (EvFind K_url <$> pre ++ [u]))).
Proof.
  intros Hpre Hu. rewrite download_unfold.
  unfold check_cache. cbn [negb]. unfold bind at 1.
  by rewrite (scan_urls_raise pre u post x).
Qed.

(** X3. When the download has succeeded and the provider's [store] then
    raises, [download(urls, False)] ends with that exception and returns
    no path.  The call stops right after the [store]: the file just
    downloaded stays on disk (the cache removes nothing), and the provider
    is left in whatever state its failed [store] left, with no retry and
    no roll-back by the cache. *)
Theorem store_fault_leaves_file urls (w w0 w1 : World S R) p h u x s' :
  check urls false w = (Ok None, w0) ->
  download_and_hash urls w0 = (Ok (p, h, u), w1) ->
  store {| file_hash := h; file_path := p; url := u; time := clock (env w1) |}
        (storage w1) = (Raise x, s') ->
  cache_download (UrlList urls) false w =
    (Raise x,
     mkWorld s' (env w1)
       (trace w1 ++ [EvStore {| file_hash := h; file_path := p; url := u;
                                time := clock (env w1) |}])) /\
  exists bytes, files (env w1) !! p = Some bytes /\ h = digest bytes.
Proof.
  intros Hcheck Hdl Hstore.
  rewrite download_unfold, Hcheck, fetch_unfold, Hdl. cbv zeta.
  rewrite Hstore. split; [done|].
  apply download_and_hash_outcome in Hdl
    as (_ & t & fails & _ & _ & _ & _ & _ & Hfile & _).
  done.
Qed.

(** *** The stages of one attempt *)

(** X4. A URL that cannot be opened costs no Downloader call: the
    exception of [urlopen] itself is handed to [warn]; when [warn] returns
    the loop goes on with the remaining URLs in the environment [urlopen]
    left, and when [warn] raises the call ends there with what it raised. *)
Theorem unreachable_url_skips_downloader url rest x en (w : World S R) :
  urlopen url (env w) = (Raise x, en) ->
  download_and_hash (url :: rest) w =
  let w' := mkWorld (storage w) en (trace w ++ [EvUrlopen url; EvWarn x]) in
  match warn_raises x with
  | None => download_and_hash rest w'
  | Some y => (Raise y, w')
  end.
Proof.
  intros Hopen. rewrite download_and_hash_cons. step. rewrite Hopen. simpl.
  rewrite <- app_assoc. by destruct (warn_raises x).
Qed.

(** X5. When the Downloader raises, the file is not hashed and nothing is
    cleaned up: the destination was chosen by [replacement_filename] for
    [cache_dir / name] in the file system as [urlopen] left it, the
    Downloader's exception is handed to [warn], and the loop goes on (or,
    when [warn] raises, the call ends) in whatever environment the
    Downloader left; a partial file stays. *)
Theorem aborted_transfer_is_not_hashed url rest sock name x en1 en2
    (w : World S R) :
  urlopen url (env w) = (Ok sock, en1) ->
  get_filename sock url = Ok name ->
  let path := replacement_filename (joinpath cache_dir name) (files en1) in
  downloader_download url path en1 = (Raise x, en2) ->
  download_and_hash (url :: rest) w =
  let w' := mkWorld (storage w) en2
              (trace w ++ [EvUrlopen url; EvDownload url path; EvWarn x]) in
  match warn_raises x with
  | None => download_and_hash rest w'
  | Some y => (Raise y, w')
  end.
Proof.
  intros Hopen Hname path Hdl. rewrite download_and_hash_cons.
  subst path. step.
  rewrite Hopen. simpl. rewrite Hname. simpl. rewrite Hdl. simpl.
  rewrite <- !app_assoc. by destruct (warn_raises x).
Qed.

(** X6. A Downloader that returns normally without having produced the
    file is treated as a failed mirror: [hash_file] raises
    [FileNotFoundError] for the destination, that exception is handed to
    [warn], and the next URL is tried (or, when [warn] raises, the call
    ends with what it raised). *)
Theorem missing_file_after_transfer_is_a_failure url rest sock name en1 en2
    (w : World S R) :
  urlopen url (env w) = (Ok sock, en1) ->
  get_filename sock url = Ok name ->
  let path := replacement_filename (joinpath cache_dir name) (files en1) in
  downloader_download url path en1 = (Ok tt, en2) ->
  files en2 !! path = None ->
  download_and_hash (url :: rest) w =
  let w' := mkWorld (storage w) en2
              (trace w ++
               [EvUrlopen url; EvDownload url path; EvHash path;
                EvWarn (FileNotFoundError path)]) in
  match warn_raises (FileNotFoundError path) with
  | None => download_and_hash rest w'
  | Some y => (Raise y, w')
  end.
Proof.
  intros Hopen Hname path Hdl Hfile. rewrite download_and_hash_cons.
  subst path. step.
  rewrite Hopen. simpl. rewrite Hname. simpl. rewrite Hdl. simpl.
  rewrite Hfile. simpl. rewrite <- !app_assoc.
  by destruct (warn_raises _).
Qed.

(** *** What the download stage can log *)

Lemma download_url_events url (w w' : World S R) r :
  download_url url w = (r, w') ->
  exists t, trace w' = trace w ++ t /\ Forall (fun ev => is_loop_ev ev = true) t.
Proof.
  step. intros Hrun.
  destruct (urlopen url (env w)) as [[sock|e] en1]; simpl in Hrun.
  2: { inversion Hrun; subst; simpl. eexists. split; [done|].
       by repeat constructor. }
  destruct (get_filename sock url) as [name|e]; simpl in Hrun.
  2: { inversion Hrun; subst; simpl. eexists. split; [done|].
       by repeat constructor. }
  destruct (downloader_download url _ en1) as [[[]|e] en2]; simpl in Hrun.
  2: { inversion Hrun; subst; simpl. rewrite <- app_assoc.
       eexists. split; [done|]. by repeat constructor. }
  destruct (files en2 !! _) as [bytes|]; simpl in Hrun;
    inversion Hrun; subst; simpl; rewrite <- !app_assoc;
    (eexists; split; [done|]; by repeat constructor).
Qed.

Lemma download_and_hash_events urls : forall (w w' : World S R) r,
  download_and_hash urls w = (r, w') ->
  exists t, trace w' = trace w ++ t /\ Forall (fun ev => is_loop_ev ev = true) t.
Proof.
  induction urls as [|url urls IH]; intros w w' r Hrun.
  - inversion Hrun; subst. exists []. by rewrite app_nil_r.
  - rewrite download_and_hash_cons in Hrun.
    destruct (download_url url w) as [[a|e] w1] eqn:Hone;
      apply download_url_events in Hone as (t1 & Htr1 & Hall1).
    + inversion Hrun; subst. by exists t1.
    + destruct (warn_raises e) as [x|].
      { inversion Hrun; subst. simpl. exists (t1 ++ [EvWarn e]). split.
        - by rewrite Htr1, <- !app_assoc.
        - apply Forall_app. split; [done|]. by repeat constructor. }
      apply IH in Hrun as (t & Htr & Hall). simpl in Htr.
      exists (t1 ++ EvWarn e :: t). split.
      * by rewrite Htr, Htr1, <- !app_assoc.
      * apply Forall_app. split; [done|]. by constructor.
Qed.

Lemma fetch_events urls rd (w w' : World S R) r :
  fetch urls rd w = (r, w') ->
  exists t,
    trace w' = trace w ++ t /\
    Forall (fun ev => is_loop_ev ev || is_store_ev ev = true) t.
Proof.
  rewrite fetch_unfold.
  destruct (download_and_hash urls w) as [[[[p h] u]|x] w1] eqn:Hdl;
    apply download_and_hash_events in Hdl as (t & Htr & Hall).
  - assert (Forall (fun ev => is_loop_ev ev || is_store_ev ev = true) t) as Hall'.
    { eapply Forall_impl; [exact Hall|]. simpl. by intros ev ->. }
    destruct rd.
    + intros [= <- <-]. by exists t.
    + cbv zeta. destruct (store _ (storage w1)) as [[[]|x] s'];
        intros [= <- <-]; simpl;
        (eexists (t ++ [_]); split; [by rewrite Htr, <- app_assoc|]);
        (apply Forall_app; split; [done|]; by repeat constructor).
  - intros [= <- <-]. exists t. split; [done|].
    eapply Forall_impl; [exact Hall|]. simpl. by intros ev ->.
Qed.

Lemma filter_nil_Forall (f g : Event -> bool) (t : list Event) :
  (forall ev, f ev = true -> g ev = false) ->
  Forall (fun ev => f ev = true) t -> List.filter g t = [].
Proof.
  intros Hfg. induction 1 as [|ev t Hev _ IH]; simpl; [done|].
  by rewrite (Hfg ev Hev).
Qed.

Lemma fetch_stage_ev_not_evict ev :
  is_loop_ev ev || is_store_ev ev = true -> is_evict_ev ev = false.
Proof. by destruct ev. Qed.

Lemma fetch_stage_ev_not_find ev :
  is_loop_ev ev || is_store_ev ev = true -> is_find_ev ev = false.
Proof. by destruct ev. Qed.

(** *** Evictions *)

Lemma is_expired_true e (w w' : World S R) :
  is_expired expiry expired_at_expiry e w = (Ok true, w') ->
  stale (clock (env w)) e.
Proof.
  intros (_ & b & [= <-] & Hb)%is_expired_decides. exact Hb.
Qed.

(** What the cache check evicts: nothing, or the file and then the entry
    of the expired entry it found. *)
Lemma check_evictions urls rd (w w1 : World S R) r :
  check urls rd w = (r, w1) ->
  exists t,
    trace w1 = trace w ++ t /\
    (List.filter is_evict_ev t = [] \/
     exists pre u post e,
       rd = false /\ urls = pre ++ u :: post /\
       find_by_key K_url u (storage w) = Ok (Some e) /\
       stale (clock (env w)) e /\
       (List.filter is_evict_ev t = [EvRemove (file_path e)] /\
          files (env w) !! file_path e = None \/
        List.filter is_evict_ev t =
          [EvRemove (file_path e); EvDelete K_url (url e)])).
Proof.
  destruct rd.
  { rewrite check_redownload. intros [= <- <-]. exists [].
    rewrite app_nil_r. by split; [|left]. }
  unfold check_cache. cbn [negb]. unfold bind at 1.
  destruct (scan_urls urls None w) as [[[e|]|x] w0] eqn:Hscan;
    apply scan_urls_outcome in Hscan as (scanned & -> & Hres).
  - destruct Hres as (pre & u & post & -> & -> & Hpre & Hu).
    unfold bind at 1.
    destruct (is_expired expiry expired_at_expiry e _) as [rb w2] eqn:Hexp.
    pose proof Hexp as Hexp'.
    apply is_expired_outcome in Hexp as (-> & b & -> & _).
    destruct b.
    + apply is_expired_true in Hexp'. simpl in Hexp'.
      step. destruct (files (env w) !! file_path e) as [bytes|] eqn:Hfile; simpl.
      * destruct (delete_by_key K_url (url e) (storage w)) as [[[]|fault] s'];
          simpl; intros [= <- <-]; simpl;
          exists ((EvFind K_url <$> pre ++ [u]) ++
                  [EvRemove (file_path e); EvDelete K_url (url e)]);
          (split; [by rewrite <- !app_assoc|]); right;
          exists pre, u, post, e; repeat split; try done; right;
          by rewrite List.filter_app, filter_finds.
      * intros [= <- <-]; simpl.
        exists ((EvFind K_url <$> pre ++ [u]) ++ [EvRemove (file_path e)]).
        split; [by rewrite <- !app_assoc|]. right.
        exists pre, u, post, e. repeat split; try done. left.
        by rewrite List.filter_app, filter_finds.
    + intros [= <- <-]. simpl. exists (EvFind K_url <$> pre ++ [u]).
      split; [done|]. left. by apply filter_finds.
  - intros [= <- <-]. simpl. exists (EvFind K_url <$> scanned).
    split; [done|]. left. by apply filter_finds.
  - intros [= <- <-]. simpl. exists (EvFind K_url <$> scanned).
    split; [done|]. left. by apply filter_finds.
Qed.

(** X7. In one call [download] removes at most one file and deletes at
    most one key, and only those of an entry it found for one of the
    candidate URLs and judged expired by the test of lines 73-74 (its age
    above the expiry, or equal to it with the floating-point comparison
    counting that as greater): the file of that entry, then the entry by
    its own [url].  Files that failed downloads left behind are never
    removed. *)
Theorem evicts_only_the_expired_entry urls rd (w w' : World S R) r :
  cache_download (UrlList urls) rd w = (r, w') ->
  exists t,
    trace w' = trace w ++ t /\
    (List.filter is_evict_ev t = [] \/
     exists pre u post e,
       rd = false /\ urls = pre ++ u :: post /\
       find_by_key K_url u (storage w) = Ok (Some e) /\
       stale (clock (env w)) e /\
       (List.filter is_evict_ev t = [EvRemove (file_path e)] /\
          files (env w) !! file_path e = None \/
        List.filter is_evict_ev t =
          [EvRemove (file_path e); EvDelete K_url (url e)])).
Proof.
  rewrite download_unfold.
  destruct (check urls rd w) as [rc w1] eqn:Hcheck.
  apply check_evictions in Hcheck as (t1 & Htr1 & Hev).
  destruct rc as [[path|]|x].
  - intros [= <- <-]. by exists t1.
  - intros Hfetch. apply fetch_events in Hfetch as (t2 & Htr2 & Hall).
    apply (filter_nil_Forall _ is_evict_ev) in Hall;
      [|apply fetch_stage_ev_not_evict].
    exists (t1 ++ t2). split; [by rewrite Htr2, Htr1, <- app_assoc|].
    rewrite List.filter_app, Hall, app_nil_r. done.
  - intros [= <- <-]. by exists t1.
Qed.


(** *** Compositions *)

(** X8. A forced refresh does not update the cache: after
    [download(urls, True)], whatever its outcome, the provider is as
    before, so a later [download(urls, False)] made while the entry that
    was cached passes the expiry test of lines 73-74 still returns the old
    cached path, not the file just fetched. *)
Theorem forced_refresh_does_not_update_cache pre u post e (w : World S R) :
  (forall v, v ∈ pre -> find_by_key K_url v (storage w) = Ok None) ->
  find_by_key K_url u (storage w) = Ok (Some e) ->
  let urls := pre ++ u :: post in
  let w1 := (cache_download (UrlList urls) true w).2 in
  storage w1 = storage w /\
  forall (en : Env R) (tr : list Event),
    served (clock en) e ->
    cache_download (UrlList urls) false (mkWorld (storage w1) en tr) =
    (Ok (file_path e),
     mkWorld (storage w1) en (tr ++ (EvFind K_url <$> pre ++ [u]))).
Proof.
  intros Hpre Hu urls w1.
  assert (storage w1 = storage w) as Hst.
  { subst w1. rewrite download_unfold, check_redownload, fetch_unfold.
    destruct (download_and_hash urls w) as [[[[p h] u']|x] w2] eqn:Hdl;
      by apply download_and_hash_outcome in Hdl as (Hst & _). }
  split; [done|]. intros en tr Hfresh. rewrite Hst, download_unfold.
  by rewrite (check_fresh_hit _ _ replacement_filename digest pre u post e).
Qed.

(** X11. On a cache miss (the provider knows none of the candidate URLs)
    [download(urls, False)] looks every candidate up exactly once, in
    order, before any network access; the rest of the call is the
    download-and-store of lines 80-89, which never queries the provider
    again and never evicts. *)
Theorem miss_queries_every_url_once urls (w : World S R) :
  (forall v, v ∈ urls -> find_by_key K_url v (storage w) = Ok None) ->
  let looked_up :=
    mkWorld (storage w) (env w) (trace w ++ (EvFind K_url <$> urls)) in
  cache_download (UrlList urls) false w = fetch urls false looked_up /\
  exists t,
    trace (cache_download (UrlList urls) false w).2 =
      trace w ++ (EvFind K_url <$> urls) ++ t /\
    List.filter is_find_ev t = [] /\
    List.filter is_evict_ev t = [].
Proof.
  intros Hall looked_up.
  assert (cache_download (UrlList urls) false w = fetch urls false looked_up)
    as Hcall
    by (by rewrite download_unfold, (check_miss _ _ replacement_filename digest)).
  split; [done|]. rewrite Hcall.
  destruct (fetch urls false looked_up) as [r w'] eqn:Hfetch.
  apply fetch_events in Hfetch as (t & Htr & Hev).
  exists t. simpl in *. split; [by rewrite Htr, <- app_assoc|]. split.
  - by apply (filter_nil_Forall _ is_find_ev) in Hev;
      [|apply fetch_stage_ev_not_find].
  - by apply (filter_nil_Forall _ is_evict_ev) in Hev;
      [|apply fetch_stage_ev_not_evict].
Qed.

(** X9. Download, then look up by hash.  Over a provider in which a
    stored entry can be found again by its hash, a call
    [download(urls, False)] that downloaded and returned a path leaves the
    file on disk and makes [get_by_hash] of the digest of its bytes return
    an entry with that hash. *)
Theorem downloaded_file_found_by_hash urls (w w0 w1 : World S R) p :
  (forall e s s',
      store e s = (Ok tt, s') ->
      exists e', find_by_key K_file_hash (file_hash e) s' = Ok (Some e') /\
                 file_hash e' = file_hash e) ->
  check urls false w = (Ok None, w0) ->
  cache_download (UrlList urls) false w = (Ok p, w1) ->
  exists bytes e',
    files (env w1) !! p = Some bytes /\
    (get_by_hash (digest bytes) w1).1 = Ok (Some e') /\
    file_hash e' = digest bytes.
Proof.
  intros Hlaw Hcheck Hrun.
  rewrite download_unfold, Hcheck in Hrun.
  apply fetch_outcome in Hrun
    as (t & fails & u & h & bytes & _ & _ & _ & _ & _ & Hfile & -> & Hstore).
  cbn [negb] in Hstore. apply Hlaw in Hstore as (e' & Hfind & Hhash).
  simpl in Hfind, Hhash. exists bytes, e'. split; [done|]. split; [|done].
  unfold get_by_hash. step. by rewrite Hfind.
Qed.

End CacheFurther.

(** X12. With [expiry=None] nothing is ever evicted: no call to
    [download] removes a file or deletes an entry, however old the entries
    are. *)
Theorem no_expiry_never_evicts {S R Sock : Type}
    `{!StorageProviderBase S, !DownloaderBase R, !Net R Sock}
    (cache_dir : string) (expired_at_expiry : bool)
    (warn_raises : exn -> option exn)
    (replacement_filename : string -> gmap string string -> string)
    (digest : string -> string) urls rd (w : World S R) :
  exists t,
    trace (download (Sock:=Sock) cache_dir None expired_at_expiry warn_raises
             replacement_filename digest (UrlList urls) rd w).2 =
      trace w ++ t /\
    List.filter is_evict_ev t = [].
Proof.
  rewrite download_unfold.
  destruct (check_cache None expired_at_expiry urls rd w) as [rc w1] eqn:Hcheck.
  apply (check_evictions None) in Hcheck as (t1 & Htr1 & Hev).
  destruct Hev as [Hev|(pre & u & post & e & _ & _ & _ & Hstale & _)];
    [|by destruct Hstale].
  destruct rc as [[path|]|x]; simpl; try by exists t1.
  destruct (fetch_and_store _ _ _ _ urls rd w1) as [r w'] eqn:Hfetch.
  apply fetch_events in Hfetch as (t2 & Htr2 & Hall).
  apply (filter_nil_Forall _ is_evict_ev) in Hall;
    [|apply fetch_stage_ev_not_evict].
  exists (t1 ++ t2). simpl. split; [by rewrite Htr2, Htr1, <- app_assoc|].
  by rewrite List.filter_app, Hall, Hev.
Qed.

(** ** The further properties on the scenarios *)

Lemma lookup_fault_propagates_witness :
  download (Sock:=Page) "/cache" (Some 10) false default_filters
    replacement_filename_model digest_model
    (UrlList [url_a; url_c]) false unreachable_world =
  (Raise (StorageError "unavailable"),
   mkWorld down_store (mkEnv ∅ 100 web_c) [EvFind K_url url_a]).
Proof.
  apply (lookup_fault_propagates (Sock:=Page)
           "/cache" (Some 10) false default_filters
           replacement_filename_model digest_model
           [] url_a [url_c] (StorageError "unavailable") unreachable_world).
  - no_earlier_hit.
  - reflexivity.
Defined.

Lemma store_fault_leaves_file_witness :
  let w := read_only_empty_world in
  let w0 := mkWorld (storage w) (env w) [EvFind K_url url_c] in
  let w1 := (_download_and_hash (Sock:=Page) "/cache" default_filters
               replacement_filename_model digest_model [url_c] w0).2 in
  let entry := {| file_hash := "sha:c bytes"; file_path := "/cache/c.fits";
                  url := url_c; time := clock (env w1) |} in
  download (Sock:=Page) "/cache" (Some 10) false default_filters
    replacement_filename_model digest_model (UrlList [url_c]) false w =
    (Raise (StorageError "read-only"),
     mkWorld (storage w) (env w1) (trace w1 ++ [EvStore entry])) /\
  exists bytes,
    files (env w1) !! "/cache/c.fits" = Some bytes /\
    "sha:c bytes" = digest_model bytes.
Proof.
  intros w w0 w1 entry.
  apply (store_fault_leaves_file (Sock:=Page)
           "/cache" (Some 10) false default_filters
           replacement_filename_model digest_model
           [url_c] w w0 w1 "/cache/c.fits" "sha:c bytes" url_c
           (StorageError "read-only") (storage w)).
  - reflexivity.
  - vm_compute. reflexivity.
  - reflexivity.
Defined.

Lemma unreachable_url_skips_downloader_witness :
  _download_and_hash (Sock:=Page) "/cache" default_filters
    replacement_filename_model digest_model [url_a; url_c] empty_cache_world =
  _download_and_hash (Sock:=Page) "/cache" default_filters
    replacement_filename_model digest_model [url_c]
    (mkWorld [] (env empty_cache_world)
       (trace empty_cache_world ++ [EvUrlopen url_a; EvWarn (URLError url_a)])).
Proof.
  apply (unreachable_url_skips_downloader (Sock:=Page)
           "/cache" default_filters replacement_filename_model digest_model
           url_a [url_c] (URLError url_a) (env empty_cache_world)
           empty_cache_world).
  reflexivity.
Defined.

Lemma aborted_transfer_is_not_hashed_witness :
  _download_and_hash (Sock:=Page) "/cache" default_filters
    replacement_filename_model digest_model [url_a; url_c] flaky_world =
  _download_and_hash (Sock:=Page) "/cache" default_filters
    replacement_filename_model digest_model [url_c]
    (mkWorld [] (mkEnv {[ "/cache/a.fits" := "" ]} 100 flaky_web)
       [EvUrlopen url_a; EvDownload url_a "/cache/a.fits";
        EvWarn (DownloaderError url_a)]).
Proof.
  apply (aborted_transfer_is_not_hashed (Sock:=Page)
           "/cache" default_filters replacement_filename_model digest_model
           url_a [url_c]
           {| page_name := "a.fits"; page_body := "a bytes" |} "a.fits"
           (DownloaderError url_a) (env flaky_world)
           (mkEnv {[ "/cache/a.fits" := "" ]} 100 flaky_web) flaky_world).
  - reflexivity.
  - reflexivity.
  - vm_compute. reflexivity.
Defined.

Lemma missing_file_after_transfer_is_a_failure_witness :
  _download_and_hash (Sock:=Page) "/cache" default_filters
    replacement_filename_model digest_model [url_b; url_c] flaky_world =
  _download_and_hash (Sock:=Page) "/cache" default_filters
    replacement_filename_model digest_model [url_c]
    (mkWorld [] (env flaky_world)
       [EvUrlopen url_b; EvDownload url_b "/cache/b.fits";
        EvHash "/cache/b.fits"; EvWarn (FileNotFoundError "/cache/b.fits")]).
Proof.
  apply (missing_file_after_transfer_is_a_failure (Sock:=Page)
           "/cache" default_filters replacement_filename_model digest_model
           url_b [url_c]
           {| page_name := "b.fits"; page_body := "b bytes" |} "b.fits"
           (env flaky_world) (env flaky_world) flaky_world).
  - reflexivity.
  - reflexivity.
  - vm_compute. reflexivity.
  - vm_compute. reflexivity.
Defined.

Lemma evicts_only_the_expired_entry_witness :
  let w := stale_world in
  let w' := (run_download (Some 10) (UrlList [url_a]) false w).2 in
  exists t,
    trace w' = trace w ++ t /\
    (List.filter is_evict_ev t = [] \/
     exists pre u post e,
       false = false /\ [url_a] = pre ++ u :: post /\
       find_by_key K_url u (storage w) = Ok (Some e) /\
       stale_at (Some 10) false (clock (env w)) e /\
       (List.filter is_evict_ev t = [EvRemove (file_path e)] /\
          files (env w) !! file_path e = None \/
        List.filter is_evict_ev t =
          [EvRemove (file_path e); EvDelete K_url (url e)])).
Proof.
  intros w w'.
  apply (evicts_only_the_expired_entry (Sock:=Page)
           "/cache" (Some 10) false default_filters
           replacement_filename_model digest_model
           [url_a] false w w'
           (run_download (Some 10) (UrlList [url_a]) false w).1).
  vm_compute. reflexivity.
Defined.

Lemma forced_refresh_does_not_update_cache_witness :
  let w : World (list CacheEntry) (gmap string Page) :=
    mkWorld [entry_b] (mkEnv ∅ 100 web_c) [] in
  let urls := [url_a; url_b; url_c] in
  let w1 := (run_download (Some 10) (UrlList urls) true w).2 in
  storage w1 = storage w /\
  forall (en : Env (gmap string Page)) (tr : list Event),
    served_at (Some 10) false (clock en) entry_b ->
    run_download (Some 10) (UrlList urls) false (mkWorld (storage w1) en tr) =
    (Ok "/cache/b.fits",
     mkWorld (storage w1) en (tr ++ [EvFind K_url url_a; EvFind K_url url_b])).
Proof.
  intros w urls w1.
  apply (forced_refresh_does_not_update_cache (Sock:=Page)
           "/cache" (Some 10) false default_filters
           replacement_filename_model digest_model
           [url_a] url_b [url_c] entry_b w).
  - no_earlier_hit.
  - reflexivity.
Defined.

(** In the in-memory provider a stored entry is found again by its hash
    (or an older entry with the same hash is). *)
Lemma in_memory_found_by_hash (e : CacheEntry) (s s' : list CacheEntry) :
  store e s = (Ok tt, s') ->
  exists e', find_by_key K_file_hash (file_hash e) s' = Ok (Some e') /\
             file_hash e' = file_hash e.
Proof.
  intros [= <-]. simpl. rewrite list_find_app.
  destruct (list_find K_file_hash (file_hash e) s) as [e'|] eqn:Hold.
  - exists e'. split; [done|].
    unfold list_find in Hold. apply List.find_some in Hold as [_ Hhash].
    by apply bool_decide_eq_true in Hhash.
  - exists e. unfold list_find. simpl. by rewrite bool_decide_eq_true_2.
Qed.

Lemma downloaded_file_found_by_hash_witness :
  let w := empty_cache_world in
  let w1 := (run_download (Some 10) (UrlList [url_a; url_c]) false w).2 in
  exists bytes e',
    files (env w1) !! "/cache/c.fits" = Some bytes /\
    (get_by_hash (digest_model bytes) w1).1 = Ok (Some e') /\
    file_hash e' = digest_model bytes.
Proof.
  intros w w1.
  apply (downloaded_file_found_by_hash (Sock:=Page)
           "/cache" (Some 10) false default_filters
           replacement_filename_model digest_model
           [url_a; url_c] w
           (mkWorld [] (env w) [EvFind K_url url_a; EvFind K_url url_c]) w1).
  - apply in_memory_found_by_hash.
  - reflexivity.
  - vm_compute. reflexivity.
Defined.


Lemma miss_queries_every_url_once_witness :
  let urls := [url_a; url_b; url_c] in
  let w := empty_cache_world in
  let looked_up :=
    mkWorld (storage w) (env w) (trace w ++ (EvFind K_url <$> urls)) in
  run_download (Some 10) (UrlList urls) false w =
    fetch_and_store (Sock:=Page) "/cache" default_filters
      replacement_filename_model digest_model urls false looked_up /\
  exists t,
    trace (run_download (Some 10) (UrlList urls) false w).2 =
      trace w ++ (EvFind K_url <$> urls) ++ t /\
    List.filter is_find_ev t = [] /\
    List.filter is_evict_ev t = [].
Proof.
  intros urls w looked_up.
  apply (miss_queries_every_url_once (Sock:=Page)
           "/cache" (Some 10) false default_filters
           replacement_filename_model digest_model urls w).
  intros v _. reflexivity.
Defined.
